(** * FunctionParser: discovery, grouping and endpoint registration

    A shallow embedding of [src/functionParser.ts].  The class walks two
    lists of discovered files.  The reactive pass merges the exports of
    every [*.function.js] module into [exports[group]]; the endpoint pass
    registers one route per [*.endpoint.js] module on an express router
    kept per group, mounts that router on the express application and
    publishes the application under [exports[group].api].

    What lives outside the file is a parameter of the development:
    [path.parse], [require], [glob.sync] and the environment variable
    [FUNCTION_NAME].  Objects that the code mutates in place (the exports
    namespace, the routers, the application) live in a [store]; a router is
    referred to by the key under which [groupRouters] holds it, so that an
    application mounting a router sees every later change of that router.
    The namespace is a dictionary from group keys to objects: values of the
    caller that are not objects, and property names inherited from
    [Object.prototype], are outside the model.  Logging ([verbose]) has no
    effect on the store and is left out. *)

From Stdlib Require Import ZArith Ascii String.
From stdpp Require Import base option list strings gmap.

(** ** The JavaScript built-ins the parser relies on *)

Module JS.

(** [s.split(sep)] for a one-character separator: never the empty array. *)
Fixpoint split (sep : ascii) (s : string) : list string :=
  match s with
  | EmptyString => [EmptyString]
  | String c s' =>
      if decide (c = sep) then EmptyString :: split sep s'
      else match split sep s' with
           | h :: t => String c h :: t
           | [] => [String c EmptyString]
           end
  end.

(** [s.slice(n)] for [0 <= n]. *)
Fixpoint slice (n : nat) (s : string) : string :=
  match n, s with
  | O, _ => s
  | S n', String _ s' => slice n' s'
  | S _, EmptyString => EmptyString
  end.

(** [s.indexOf(searchValue)]; [None] stands for [-1]. *)
Fixpoint indexOf (searchValue s : string) : option nat :=
  if String.prefix searchValue s then Some O
  else match s with
       | EmptyString => None
       | String _ s' => S <$> indexOf searchValue s'
       end.

(** [s.replace(searchValue, replaceValue)] with a string pattern: only the
    first occurrence is replaced. *)
Fixpoint replace (searchValue replaceValue s : string) : string :=
  if String.prefix searchValue s
  then replaceValue +:+ slice (String.length searchValue) s
  else match s with
       | EmptyString => EmptyString
       | String c s' => String c (replace searchValue replaceValue s')
       end.

(** [a[i]] on an array: [undefined] outside [0 .. a.length - 1]. *)
Definition index {A} (a : list A) (i : Z) : option A :=
  if (i <? 0)%Z then None else a !! Z.to_nat i.

(** [a.length]. *)
Definition length {A} (a : list A) : Z := Z.of_nat (List.length a).

(** [v || ''] for [v : string | undefined]. *)
Definition or_empty (v : option string) : string :=
  match v with
  | Some s => if decide (s = EmptyString) then EmptyString else s
  | None => EmptyString
  end.

(** Truthiness of a [string | undefined] and of a [boolean | undefined]. *)
Definition truthy_string (v : option string) : bool :=
  match v with
  | Some s => if decide (s = EmptyString) then false else true
  | None => false
  end.

Definition truthy (v : option bool) : bool := default false v.

(** [v ?? d]. *)
Definition nullish {A} (v : option A) (d : A) : A := default d v.

End JS.

(** ** Data model *)

(** Functions supplied by user modules are opaque; an identifier stands for
    the function object. *)
Definition callable := nat.

(** Modelled from the spec: the [RequestType] enumeration of [./models],
    which is not part of the sources; the spec gives it as the closed
    enumeration GET, POST, PUT, DELETE, PATCH. *)
Inductive RequestType := GET | POST | PUT | DELETE | PATCH.

Definition RequestType_value (t : RequestType) : string :=
  match t with
  | GET => "GET" | POST => "POST" | PUT => "PUT"
  | DELETE => "DELETE" | PATCH => "PATCH"
  end.

#[global] Instance RequestType_eq_dec : EqDecision RequestType.
Proof. solve_decision. Defined.

Module ParsedPath.
(** The two fields of [path.parse]'s result that the parser reads. *)
Record t := mk { dir : string; name : string }.
End ParsedPath.

Module EndpointOptions.
Record t := mk {
  enableCors : option bool;
  enableFileUpload : option bool;
  middlewares : option (list callable);
}.
End EndpointOptions.

Module Endpoint.
(** [{ name?, requestType, handler, options? }]; [requestType] is the raw
    value the module exports, [None] when the field is missing. *)
Record t := mk {
  name : option string;
  requestType : option string;
  handler : callable;
  options : option EndpointOptions.t;
}.
End Endpoint.

Module ParserOptions.
Record t := mk {
  enableCors : option bool;
  groupByFolder : option bool;
  buildReactive : option bool;
  buildEndpoints : option bool;
}.
End ParserOptions.

Module FunctionParserOptions.
(** The constructor's [props]; [exports] is an object reference and is
    found in the store. *)
Record t := mk {
  rootPath : string;
  options : option ParserOptions.t;
}.
End FunctionParserOptions.

(** The blanket middleware the parser installs with [router.use]. *)
Inductive middleware := cors | fileUpload.

(** What [router.get(path, middlewares, handler)] and its siblings add. *)
Record route := Route {
  method : RequestType;
  path : string;
  chain : list callable;
}.

(** A router is its stack of layers, in registration order. *)
Inductive layer :=
| Use (m : middleware)
| Handle (r : route).

Abbreviation router := (list layer).

(** Values found in a module's exports or in the namespace. *)
Inductive value :=
| VFunction (f : callable)
| VEndpoint (e : Endpoint.t)
| VAdapter.
(** [VAdapter] is [functions.https.onRequest(app)]: it holds a reference to
    the application object of the running endpoint pass. *)

#[global] Instance middleware_eq_dec : EqDecision middleware.
Proof. solve_decision. Defined.
#[global] Instance route_eq_dec : EqDecision route.
Proof. solve_decision. Defined.
#[global] Instance layer_eq_dec : EqDecision layer.
Proof. solve_decision. Defined.

(** An object used as a bag of named values. *)
Abbreviation bag := (gmap string value).

(** The objects the constructor mutates. *)
Record store := Store {
  exports : gmap string bag;          (* this.exports, the caller's namespace *)
  groupRouters : gmap string router;  (* the Map of routers, one per group *)
  app : list string;                  (* app.use('/', router): mounted routers, by group key *)
}.

(** Errors thrown during construction. *)
Inductive error :=
| Error (message : string)      (* new Error(message) *)
| TypeError                     (* property read on undefined *)
| ModuleError (file : string).  (* whatever require(file) threw *)

(** ** A state and exception monad for the constructor's effects *)

Inductive completion (A : Type) :=
| Normal (a : A)
| Throw (e : error).
Arguments Normal {A} a.
Arguments Throw {A} e.

Definition M (A : Type) : Type := store -> completion A * store.

Definition ret {A} (a : A) : M A := fun s => (Normal a, s).

Definition bind {A B} (m : M A) (k : A -> M B) : M B :=
  fun s => match m s with
           | (Normal a, s') => k a s'
           | (Throw e, s') => (Throw e, s')
           end.

Definition throw {A} (e : error) : M A := fun s => (Throw e, s).

Definition try_catch {A} (m : M A) (h : error -> M A) : M A :=
  fun s => match m s with
           | (Normal a, s') => (Normal a, s')
           | (Throw e, s') => h e s'
           end.

Definition gets {A} (f : store -> A) : M A := fun s => (Normal (f s), s).

Definition modify (f : store -> store) : M unit := fun s => (Normal tt, f s).

Definition when (b : bool) (m : M unit) : M unit := if b then m else ret tt.

Notation "x <- m ;; k" := (bind m (fun x => k))
  (at level 100, m at next level, right associativity).
Notation "m ;; k" := (bind m (fun _ => k))
  (at level 100, right associativity).

(** [files.forEach(callback)]: a throw ends the iteration. *)
Fixpoint forEach (callback : string -> M unit) (files : list string) : M unit :=
  match files with
  | [] => ret tt
  | file :: rest => callback file ;; forEach callback rest
  end.

(** ** Store primitives *)

(** The router stored under [g]; a group without router has no layers. *)
Definition router_of (s : store) (g : string) : router :=
  default [] (groupRouters s !! g).

(** The object stored under [exports[g]], spread: [{...exports[g]}]. *)
Definition spread (s : store) (g : string) : bag :=
  default ∅ (exports s !! g).

(** [groupRouters.set(g, r)]. *)
Definition groupRouters_set (g : string) (r : router) : M unit :=
  modify (fun s => Store (exports s) (<[g := r]> (groupRouters s)) (app s)).

(** Push a layer on the router held under [g]. *)
Definition router_push (g : string) (l : layer) : M unit :=
  modify (fun s =>
    Store (exports s) (<[g := router_of s g ++ [l]]> (groupRouters s)) (app s)).

(** [router.use(m)]. *)
Definition router_use (g : string) (m : middleware) : M unit :=
  router_push g (Use m).

(** [router.get(path, middlewares, handler)] and its four siblings. *)
Definition router_get (g p : string) (mws : list callable) (h : callable) : M unit :=
  router_push g (Handle (Route GET p (mws ++ [h]))).
Definition router_post (g p : string) (mws : list callable) (h : callable) : M unit :=
  router_push g (Handle (Route POST p (mws ++ [h]))).
Definition router_put (g p : string) (mws : list callable) (h : callable) : M unit :=
  router_push g (Handle (Route PUT p (mws ++ [h]))).
Definition router_delete (g p : string) (mws : list callable) (h : callable) : M unit :=
  router_push g (Handle (Route DELETE p (mws ++ [h]))).
Definition router_patch (g p : string) (mws : list callable) (h : callable) : M unit :=
  router_push g (Handle (Route PATCH p (mws ++ [h]))).

(** [app.use('/', router)] for the router held under [g]. *)
Definition app_use (g : string) : M unit :=
  modify (fun s => Store (exports s) (groupRouters s) (app s ++ [g])).

(** [this.exports[g] = b]. *)
Definition exports_set (g : string) (b : bag) : M unit :=
  modify (fun s => Store (<[g := b]> (exports s)) (groupRouters s) (app s)).

(** ** Messages *)

Definition nl : string := String (ascii_of_nat 10) EmptyString.
Definition indent : string := "          ".

Definition rootPath_message : string :=
  "rootPath is required to find the functions.".

Definition unsupported_message : string :=
  "A unsupported RequestType was defined for a Endpoint." +:+ nl +:+ nl +:+
  indent +:+ "Please make sure that the Endpoint file exports a RequestType" +:+ nl +:+
  indent +:+ "using the constants in src/system/constants/requests.ts." +:+ nl +:+ nl +:+
  indent +:+ "**This value is required to add the Endpoint to the API**".

Definition failed_message (file groupName : string) : string :=
  "Restful Endpoints - Failed to add the endpoint defined in " +:+ file +:+
  " to the " +:+ groupName +:+ " Api.".

(** [require(file).default as Endpoint]: the assertion is unchecked.  A
    function read as a descriptor has neither [requestType] nor [options];
    its [handler] is never reached. *)
Definition as_Endpoint (v : value) : Endpoint.t :=
  match v with
  | VEndpoint e => e
  | VFunction f => Endpoint.mk None None f None
  | VAdapter => Endpoint.mk None None O None
  end.

(** ** The parser *)

Section FunctionParser.

(** [path.parse] *)
Variable parse : string -> ParsedPath.t.
(** [require]: the exports of a module, [None] when loading throws. *)
Variable require : string -> option bag.
(** [glob.sync(pattern, { cwd, ignore })] *)
Variable glob_sync : string -> list string.
(** [process.env.FUNCTION_NAME] *)
Variable FUNCTION_NAME : option string.

Definition js_require (file : string) : M bag :=
  match require file with
  | Some m => ret m
  | None => throw (ModuleError file)
  end.

(** Lines 89-93. *)
Definition reactive_groupName (groupByFolder : bool) (file : string) : string :=
  let filePath := parse file in
  let directories := JS.split "/" (ParsedPath.dir filePath) in
  if groupByFolder
  then JS.or_empty (JS.index directories (JS.length directories - 2)%Z)
  else JS.or_empty (JS.index directories (JS.length directories - 1)%Z).

(** Line 95. *)
Definition functionName (file : string) : string :=
  JS.replace ".function" "" (ParsedPath.name (parse file)).

(** Lines 97-100. *)
Definition selected (file : string) : bool :=
  negb (JS.truthy_string FUNCTION_NAME)
  || bool_decide (FUNCTION_NAME = Some (functionName file)).

(** The callback of [functionFiles.forEach], lines 86-110. *)
Definition buildReactiveFunctions_file (groupByFolder : bool) (file : string) : M unit :=
  let groupName := reactive_groupName groupByFolder file in
  if selected file then
    present <- gets (fun s => bool_decide (is_Some (exports s !! groupName))) ;;
    when (negb present) (exports_set groupName ∅) ;;
    old <- gets (fun s => spread s groupName) ;;
    m <- js_require file ;;
    exports_set groupName (m ∪ old)
  else ret tt.

Definition buildReactiveFunctions (rootPath : string) (groupByFolder : bool) : M unit :=
  let functionFiles := glob_sync (rootPath +:+ "/**/*.function.js") in
  forEach (buildReactiveFunctions_file groupByFolder) functionFiles.

(** Lines 186-187. *)
Definition endpoint_name (endpoint : Endpoint.t) (file : string) : string :=
  let filePath := parse file in
  if JS.truthy_string (Endpoint.name endpoint)
  then default EmptyString (Endpoint.name endpoint)
  else JS.replace ".endpoint" "" (ParsedPath.name filePath).

(** Lines 177-237; the router argument is the one held under [groupName]. *)
Definition buildEndpoint (enableCors : bool) (file groupName : string) : M unit :=
  m <- js_require file ;;
  endpoint <- match m !! "default" with
              | Some v => ret (as_Endpoint v)
              | None => throw TypeError
              end ;;
  let name := endpoint_name endpoint file in
  let handler := Endpoint.handler endpoint in
  let options := Endpoint.options endpoint in
  (if enableCors then router_use groupName cors
   else if JS.truthy (options ≫= EndpointOptions.enableCors)
        then router_use groupName cors
        else ret tt) ;;
  when (JS.truthy (options ≫= EndpointOptions.enableFileUpload))
       (router_use groupName fileUpload) ;;
  let p := "/" +:+ groupName +:+ "/" +:+ name in
  let mws := JS.nullish (options ≫= EndpointOptions.middlewares) [] in
  let requestType := Endpoint.requestType endpoint in
  if bool_decide (requestType = Some (RequestType_value GET))
  then router_get groupName p mws handler
  else if bool_decide (requestType = Some (RequestType_value POST))
  then router_post groupName p mws handler
  else if bool_decide (requestType = Some (RequestType_value PUT))
  then router_put groupName p mws handler
  else if bool_decide (requestType = Some (RequestType_value DELETE))
  then router_delete groupName p mws handler
  else if bool_decide (requestType = Some (RequestType_value PATCH))
  then router_patch groupName p mws handler
  else throw (Error unsupported_message).

(** Lines 136-140. *)
Definition restful_groupName (groupByFolder : bool) (file : string) : string :=
  let filePath := parse file in
  let directories := JS.split "/" (ParsedPath.dir filePath) in
  if groupByFolder
  then JS.or_empty (JS.index directories (JS.length directories - 2)%Z)
  else JS.or_empty (JS.index directories (JS.length directories - 1)%Z).

(** The callback of [apiFiles.forEach], lines 133-164. *)
Definition buildRestfulApi_file (enableCors groupByFolder : bool) (file : string) : M unit :=
  let groupName := restful_groupName groupByFolder file in
  router <- gets (fun s => groupRouters s !! groupName) ;;
  match router with
  | None => groupRouters_set groupName []
  | Some _ => ret tt
  end ;;
  try_catch (buildEndpoint enableCors file groupName)
            (fun _ => throw (Error (failed_message file groupName))) ;;
  app_use groupName ;;
  old <- gets (fun s => spread s groupName) ;;
  exports_set groupName (<["api" := VAdapter]> old).

(** Lines 121-167: a fresh application and a fresh map of routers, then
    the loop. *)
Definition buildRestfulApi (rootPath : string) (enableCors groupByFolder : bool) : M unit :=
  let apiFiles := glob_sync (rootPath +:+ "/**/*.endpoint.js") in
  modify (fun s => Store (exports s) ∅ []) ;;
  forEach (buildRestfulApi_file enableCors groupByFolder) apiFiles.

(** The constructor, lines 43-65; [props.exports] is the namespace of the
    store it runs in. *)
Definition FunctionParser (props : FunctionParserOptions.t) : M unit :=
  let rootPath := FunctionParserOptions.rootPath props in
  let options := FunctionParserOptions.options props in
  if decide (rootPath = EmptyString) then throw (Error rootPath_message)
  else
    let enableCors := JS.nullish (options ≫= ParserOptions.enableCors) false in
    let groupByFolder := JS.nullish (options ≫= ParserOptions.groupByFolder) true in
    let buildReactive := JS.nullish (options ≫= ParserOptions.buildReactive) true in
    let buildEndpoints := JS.nullish (options ≫= ParserOptions.buildEndpoints) true in
    when buildReactive (buildReactiveFunctions rootPath groupByFolder) ;;
    when buildEndpoints (buildRestfulApi rootPath enableCors groupByFolder).

End FunctionParser.

(** ** Observations on the store *)

(** The routes of a router, in registration order. *)
Definition routes (r : router) : list route :=
  omap (fun l => match l with Handle x => Some x | Use _ => None end) r.

(** The routes reachable through the application: those of every mounted
    router, looked up at the time of the request. *)
Definition app_routes (s : store) : list route :=
  flat_map (fun g => routes (router_of s g)) (app s).

(** The routes an exported value answers to. *)
Definition exposed_routes (s : store) (v : value) : list route :=
  match v with
  | VAdapter => app_routes s
  | _ => []
  end.

(** [exports[g][k]]. *)
Definition member (s : store) (g k : string) : option value :=
  exports s !! g ≫= (fun b => b !! k).

(** ** Path segments, as the specification words them *)

Definition segments (d : string) : list string := JS.split "/" d.

(** The segment [n] places before the end: [0] is the last one. *)
Definition from_end (n : nat) (segs : list string) : option string :=
  reverse segs !! n.

Definition group_key (groupByFolder : bool) (d : string) : string :=
  default EmptyString (from_end (if groupByFolder then 1%nat else 0%nat) (segments d)).

(** ** A model of [path.posix.parse] for running the parser on examples

    It covers the paths [glob.sync] returns: no trailing slash, and a base
    name that is not made of dots only. *)

Fixpoint join (sep : string) (l : list string) : string :=
  match l with
  | [] => EmptyString
  | [x] => x
  | x :: rest => x +:+ sep +:+ join sep rest
  end.

(** [s] without its last dot and what follows; [None] when [s] has no dot. *)
Fixpoint drop_ext (s : string) : option string :=
  match s with
  | EmptyString => None
  | String c s' =>
      match drop_ext s' with
      | Some r => Some (String c r)
      | None => if decide (c = "."%char) then Some EmptyString else None
      end
  end.

Definition posix_parse (p : string) : ParsedPath.t :=
  let segs := JS.split "/" p in
  let base := List.last segs EmptyString in
  let d := join "/" (removelast segs) in
  ParsedPath.mk
    (if decide (d = EmptyString) then
       (if String.prefix "/" p then "/" else EmptyString)
     else d)
    (match base with
     | EmptyString => EmptyString
     | String c rest => String c (default rest (drop_ext rest))
     end).

(** ** What a file contributes

    The effect of one file on the store, written as data: the route it
    registers, the layers it pushes, how its registration completes. *)

(** The switch of lines 204-232 selects a method, or none. *)
Definition method_of (raw : option string) : option RequestType :=
  if bool_decide (raw = Some (RequestType_value GET)) then Some GET
  else if bool_decide (raw = Some (RequestType_value POST)) then Some POST
  else if bool_decide (raw = Some (RequestType_value PUT)) then Some PUT
  else if bool_decide (raw = Some (RequestType_value DELETE)) then Some DELETE
  else if bool_decide (raw = Some (RequestType_value PATCH)) then Some PATCH
  else None.

(** Layers pushed one after the other on the router held under [g]. *)
Definition pushes (g : string) (new : list layer) (s : store) : store :=
  foldl (fun s l =>
           Store (exports s) (<[g := router_of s g ++ [l]]> (groupRouters s)) (app s))
        s new.

(** Lines 142-148: the group gets a router if it has none. *)
Definition ensure (g : string) (s : store) : store :=
  match groupRouters s !! g with
  | None => Store (exports s) (<[g := []]> (groupRouters s)) (app s)
  | Some _ => s
  end.

(** Lines 158-163: mount the router, publish the adapter. *)
Definition publish (g : string) (s : store) : store :=
  Store (<[g := <["api" := VAdapter]> (spread s g)]> (exports s))
        (groupRouters s) (app s ++ [g]).

(** Lines 192-202. *)
Definition middleware_layers (enableCors : bool) (e : Endpoint.t) : list layer :=
  (if enableCors then [Use cors]
   else if JS.truthy (Endpoint.options e ≫= EndpointOptions.enableCors)
        then [Use cors] else [])
  ++ (if JS.truthy (Endpoint.options e ≫= EndpointOptions.enableFileUpload)
      then [Use fileUpload] else []).

Section Contribution.

Variable parse : string -> ParsedPath.t.
Variable require : string -> option bag.

(** The route a file registers in group [g], if its descriptor has a
    supported request type. *)
Definition file_route (file g : string) : option route :=
  m ← require file;
  v ← m !! "default";
  t ← method_of (Endpoint.requestType (as_Endpoint v));
  Some (Route t
          ("/" +:+ g +:+ "/" +:+ endpoint_name parse (as_Endpoint v) file)
          (JS.nullish (Endpoint.options (as_Endpoint v) ≫= EndpointOptions.middlewares) []
           ++ [Endpoint.handler (as_Endpoint v)])).

(** The layers a file pushes on the router of [g]. *)
Definition file_layers (enableCors : bool) (file g : string) : list layer :=
  match require file with
  | Some m =>
      match m !! "default" with
      | Some v =>
          middleware_layers enableCors (as_Endpoint v)
          ++ match file_route file g with
             | Some r => [Handle r]
             | None => []
             end
      | None => []
      end
  | None => []
  end.

(** How [buildEndpoint] completes on a file. *)
Definition endpoint_completion (file : string) : completion unit :=
  match require file with
  | Some m =>
      match m !! "default" with
      | Some v =>
          match method_of (Endpoint.requestType (as_Endpoint v)) with
          | Some _ => Normal tt
          | None => Throw (Error unsupported_message)
          end
      | None => Throw TypeError
      end
  | None => Throw (ModuleError file)
  end.

(** [file] is merged into group [g] and exports a member named [k]. *)
Definition writes (FUNCTION_NAME : option string) (groupByFolder : bool)
    (g k file : string) : bool :=
  selected parse FUNCTION_NAME file
  && bool_decide (reactive_groupName parse groupByFolder file = g)
  && match require file with
     | Some m => bool_decide (is_Some (m !! k))
     | None => false
     end.

(** The store after the files [done] have been processed without error. *)
Definition published (groupByFolder : bool) (done : list string) (s : store) : Prop :=
  app s = restful_groupName parse groupByFolder <$> done
  ∧ (∀ g, routes (router_of s g)
          = omap (fun f => file_route f (restful_groupName parse groupByFolder f))
                 (filter (fun f => restful_groupName parse groupByFolder f = g) done))
  ∧ (∀ f, f ∈ done →
          member s (restful_groupName parse groupByFolder f) "api" = Some VAdapter).

End Contribution.

(** ** Names, as the specification words them *)


(** The name as the claim words it: the explicit name field if present,
    else the file name with its trailing tag stripped. *)
Fixpoint strip_trailing (tag s : string) : string :=
  if decide (s = tag) then EmptyString
  else match s with
       | EmptyString => EmptyString
       | String c s' => String c (strip_trailing tag s')
       end.

Definition stated_name (e : Endpoint.t) (filename : string) : string :=
  match Endpoint.name e with
  | Some n => n
  | None => strip_trailing ".endpoint" filename
  end.

(** ** A sample tree

    [/srv/fn] holds two folders, [billing] and [users]; grouping is by the
    immediate folder ([groupByFolder] off). *)

Module Sample.

Definition invoices := "/srv/fn/billing/invoices.endpoint.js".
Definition refunds := "/srv/fn/billing/refunds.endpoint.js".
Definition profile := "/srv/fn/users/profile.endpoint.js".
Definition ping := "/srv/fn/users/ping.endpoint.js".
Definition onCreate := "/srv/fn/users/onCreate.function.js".
Definition onDelete := "/srv/fn/users/onDelete.function.js".
Definition charge := "/srv/fn/billing/charge.function.js".

(** GET, no name, asks for CORS. *)
Definition invoices_endpoint : Endpoint.t :=
  Endpoint.mk None (Some "GET") 10
    (Some (EndpointOptions.mk (Some true) None None)).
(** POST, named, with one middleware. *)
Definition refunds_endpoint : Endpoint.t :=
  Endpoint.mk (Some "refunds") (Some "POST") 11
    (Some (EndpointOptions.mk None None (Some [20]))).
(** GET, with an empty name. *)
Definition profile_endpoint : Endpoint.t :=
  Endpoint.mk (Some "") (Some "GET") 12 None.
(** A request type outside the enumeration. *)
Definition ping_endpoint : Endpoint.t :=
  Endpoint.mk None (Some "HEAD") 13 None.

Definition require (file : string) : option bag :=
  if decide (file = invoices) then Some {[ "default" := VEndpoint invoices_endpoint ]}
  else if decide (file = refunds) then Some {[ "default" := VEndpoint refunds_endpoint ]}
  else if decide (file = profile) then Some {[ "default" := VEndpoint profile_endpoint ]}
  else if decide (file = ping) then Some {[ "default" := VEndpoint ping_endpoint ]}
  else if decide (file = onCreate)
       then Some (<[ "onCreate" := VFunction 1 ]> {[ "shared" := VFunction 2 ]})
  else if decide (file = onDelete)
       then Some (<[ "onDelete" := VFunction 3 ]> {[ "shared" := VFunction 4 ]})
  else if decide (file = charge) then Some {[ "charge" := VFunction 5 ]}
  else None.

(** A tree whose endpoint files all register. *)
Definition glob_sync (pattern : string) : list string :=
  if decide (pattern = "/srv/fn/**/*.function.js") then [onCreate; charge; onDelete]
  else if decide (pattern = "/srv/fn/**/*.endpoint.js") then [invoices; profile; refunds]
  else [].

(** The same tree with [ping.endpoint.js] in it. *)
Definition glob_sync_ping (pattern : string) : list string :=
  if decide (pattern = "/srv/fn/**/*.function.js") then [onCreate; charge; onDelete]
  else if decide (pattern = "/srv/fn/**/*.endpoint.js") then [invoices; ping; refunds]
  else [].

Definition props : FunctionParserOptions.t :=
  FunctionParserOptions.mk "/srv/fn"
    (Some (ParserOptions.mk None (Some false) None None)).

(** The caller's namespace holds one entry of its own. *)
Definition caller : store :=
  Store {[ "legacy" := {[ "cron" := VFunction 99 ]} ]} ∅ [].

Definition built : completion unit * store :=
  FunctionParser posix_parse require glob_sync None props caller.

Definition built_ping : completion unit * store :=
  FunctionParser posix_parse require glob_sync_ping None props caller.

(** The endpoint pass on the sample tree and what it leaves behind. *)
Definition endpoints_built : store :=
  snd (buildRestfulApi posix_parse require glob_sync "/srv/fn" false false caller).

(** The reactive pass on the sample tree. *)
Definition reactive_pass_of (s : store) : completion unit * store :=
  buildReactiveFunctions posix_parse require glob_sync None "/srv/fn" false s.

(** The store in which the endpoint pass starts: fresh application, no
    router. *)
Definition fresh : store := Store (exports caller) ∅ [].

End Sample.

(** ** More files for the sample tree *)

Module SampleMore.

(** A background-function module that exports a member named [api]. *)
Definition gateway := "/srv/fn/billing/gateway.function.js".
(** A background-function file whose module throws on loading. *)
Definition broken := "/srv/fn/users/broken.function.js".
(** An endpoint that asks for CORS and for file uploads. *)
Definition avatar := "/srv/fn/users/avatar.endpoint.js".

Definition avatar_endpoint : Endpoint.t :=
  Endpoint.mk (Some "avatar") (Some "PUT") 14
    (Some (EndpointOptions.mk (Some true) (Some true) (Some [21; 22]))).

Definition require (file : string) : option bag :=
  if decide (file = gateway) then Some {[ "api" := VFunction 6 ]}
  else if decide (file = avatar) then Some {[ "default" := VEndpoint avatar_endpoint ]}
  else Sample.require file.

Definition glob_sync (pattern : string) : list string :=
  if decide (pattern = "/srv/fn/**/*.function.js") then [Sample.onCreate; gateway]
  else if decide (pattern = "/srv/fn/**/*.endpoint.js") then [Sample.invoices; avatar]
  else [].

Definition built : completion unit * store :=
  FunctionParser posix_parse require glob_sync None Sample.props Sample.caller.

(** The endpoint pass of the first sample tree with CORS on globally. *)
Definition built_with_cors : completion unit * store :=
  buildRestfulApi posix_parse Sample.require Sample.glob_sync "/srv/fn" true false
    Sample.caller.

End SampleMore.

(** ** How a pass completes, and what a group ends up holding *)

Section Outcome.

Variable parse : string -> ParsedPath.t.
Variable require : string -> option bag.

(** A background-function file that is selected and whose module throws on
    loading. *)
Definition fails_to_load (FUNCTION_NAME : option string) (file : string) : bool :=
  selected parse FUNCTION_NAME file
  && match require file with
     | Some _ => false
     | None => true
     end.


(** The files of group [g] that the reactive pass merges. *)
Definition merged_into (FUNCTION_NAME : option string) (groupByFolder : bool)
    (g : string) (files : list string) : list string :=
  filter (fun f => selected parse FUNCTION_NAME f = true
                   ∧ reactive_groupName parse groupByFolder f = g) files.

(** [{...old, ...require(file)}] seen at one member name [k]. *)
Definition overwrite (k : string) (old : option value) (file : string) : option value :=
  match require file ≫= (fun m => m !! k) with
  | Some v => Some v
  | None => old
  end.

End Outcome.

(** A layer pushed by [router.use]. *)
Definition is_middleware (l : layer) : bool :=
  match l with
  | Use _ => true
  | Handle _ => false
  end.

(** The group key of the route path [/group/name] is a single path segment. *)
Definition slash_free (g : string) : Prop := JS.indexOf "/" g = None.

(** * Properties *)

(** ** The built-ins on examples *)

Example posix_parse_invoices :
  posix_parse "/srv/fn/billing/invoices.endpoint.js"
  = ParsedPath.mk "/srv/fn/billing" "invoices.endpoint".
Proof. reflexivity. Qed.

Example posix_parse_top : posix_parse "/x.function.js" = ParsedPath.mk "/" "x.function".
Proof. reflexivity. Qed.

Example split_root : JS.split "/" "/" = [EmptyString; EmptyString].
Proof. reflexivity. Qed.

Example replace_first_only :
  JS.replace ".endpoint" "" "a.endpoint.b.endpoint" = "a.b.endpoint".
Proof. reflexivity. Qed.

(** ** Grouping *)

Lemma index_from_end (l : list string) (n : nat) :
  JS.index l (JS.length l - Z.of_nat (S n))%Z = from_end n l.
Proof.
  unfold JS.index, JS.length, from_end.
  destruct (decide (n < length l)%nat) as [Hlt | Hge].
  - rewrite reverse_lookup by exact Hlt.
    destruct (Z.ltb_spec (Z.of_nat (length l) - Z.of_nat (S n)) 0) as [Hneg | _]; [lia |].
    f_equal. lia.
  - rewrite (lookup_ge_None_2 (reverse l)) by (rewrite length_reverse; lia).
    destruct (Z.ltb_spec (Z.of_nat (length l) - Z.of_nat (S n)) 0) as [_ | Hpos]; [done |].
    apply lookup_ge_None_2. lia.
Qed.

Lemma or_empty_default (v : option string) : JS.or_empty v = default EmptyString v.
Proof. destruct v as [s |]; simpl; [| done]. by destruct (decide (s = EmptyString)). Qed.

Section Grouping.

Variable parse : string -> ParsedPath.t.

(** C2. For every file path the group key is the second-to-last segment of
    the file's directory path when groupByFolder is on and the last segment
    otherwise; an empty or missing segment gives the empty key, without
    error; the reactive pass and the endpoint pass compute the same key. *)
Theorem groupName_is_group_key (groupByFolder : bool) (file : string) :
  reactive_groupName parse groupByFolder file
    = group_key groupByFolder (ParsedPath.dir (parse file))
  ∧ restful_groupName parse groupByFolder file
    = reactive_groupName parse groupByFolder file
  ∧ match from_end (if groupByFolder then 1%nat else 0%nat)
                   (segments (ParsedPath.dir (parse file))) with
    | Some seg => reactive_groupName parse groupByFolder file = seg
    | None => reactive_groupName parse groupByFolder file = EmptyString
    end.
Proof.
  assert (Hkey : reactive_groupName parse groupByFolder file
                 = group_key groupByFolder (ParsedPath.dir (parse file))).
  { unfold reactive_groupName, group_key, segments.
    rewrite !or_empty_default.
    destruct groupByFolder.
    - by rewrite (index_from_end _ 1).
    - by rewrite (index_from_end _ 0). }
  split; [exact Hkey |]. split; [reflexivity |].
  rewrite Hkey. unfold group_key.
  by destruct (from_end _ _).
Qed.

End Grouping.

(** ** Iteration *)

Lemma forEach_app (callback : string -> M unit) (l1 l2 : list string) (s : store) :
  forEach callback (l1 ++ l2) s
  = match forEach callback l1 s with
    | (Normal _, s') => forEach callback l2 s'
    | (Throw e, s') => (Throw e, s')
    end.
Proof.
  revert s. induction l1 as [| f l1 IH]; intros s; simpl; [done |].
  unfold bind. destruct (callback f s) as [[[] | e] s']; [apply IH | done].
Qed.

Lemma forEach_cons (callback : string -> M unit) (f : string) (l : list string) (s : store) :
  forEach callback (f :: l) s
  = match callback f s with
    | (Normal _, s') => forEach callback l s'
    | (Throw e, s') => (Throw e, s')
    end.
Proof. reflexivity. Qed.

(** A property kept by every call of the callback on the files of a list is
    kept by the iteration, however it completes. *)
Lemma forEach_preserves (P : store -> Prop) (Q : string -> Prop)
    (callback : string -> M unit) :
  (∀ f s c s', Q f → callback f s = (c, s') → P s → P s') →
  ∀ files s c s', Forall Q files → forEach callback files s = (c, s') → P s → P s'.
Proof.
  intros Hstep files. induction files as [| f files IH]; intros s c s' HQ Hrun HP.
  - simpl in Hrun. unfold ret in Hrun. by simplify_eq.
  - rewrite forEach_cons in Hrun. inversion_clear HQ as [| ? ? Hf Hfiles].
    destruct (callback f s) as [[[] | e] s1] eqn:Hcb.
    + eapply IH; eauto.
    + simplify_eq. eauto.
Qed.

(** ** The reactive pass *)

Section Reactive.

Variable parse : string -> ParsedPath.t.
Variable require : string -> option bag.

Local Abbreviation groupName := (reactive_groupName parse).
Local Abbreviation callback env := (buildReactiveFunctions_file parse require env).

(** What one call of the callback does to the store. *)
Lemma reactive_file_run env groupByFolder file s :
  callback env groupByFolder file s
  = if selected parse env file then
      match require file with
      | Some m =>
          (Normal tt,
           Store (<[groupName groupByFolder file
                    := m ∪ spread s (groupName groupByFolder file)]> (exports s))
                 (groupRouters s) (app s))
      | None =>
          (Throw (ModuleError file),
           Store (<[groupName groupByFolder file
                    := spread s (groupName groupByFolder file)]> (exports s))
                 (groupRouters s) (app s))
      end
    else (Normal tt, s).
Proof.
  unfold buildReactiveFunctions_file.
  destruct (selected parse env file); [| done].
  set (g := groupName groupByFolder file).
  unfold bind, gets, when, exports_set, modify, js_require, spread, ret, throw.
  destruct s as [ex rs ap]; simpl.
  destruct (ex !! g) as [b |] eqn:Hg; simpl.
  - rewrite Hg. destruct (require file); simpl; [done |].
    by rewrite insert_id.
  - rewrite ?lookup_insert_eq. destruct (require file); simpl; [| done].
    by rewrite insert_insert_eq.
Qed.

(** The selector equals the logical name, or no selector is in force. *)
Lemma selected_Some (s file : string) :
  s ≠ EmptyString →
  selected parse (Some s) file = bool_decide (functionName parse file = s).
Proof.
  intros Hs. unfold selected, JS.truthy_string.
  destruct (decide (s = EmptyString)); [done |]. simpl.
  apply bool_decide_ext. split; [by intros [= ->] | by intros ->].
Qed.

Lemma selected_unset (file : string) : selected parse None file = true.
Proof. reflexivity. Qed.

Lemma selected_empty (file : string) : selected parse (Some EmptyString) file = true.
Proof. reflexivity. Qed.

(** C6, as amended. With the selector set to a non-empty value [s], the
    reactive pass does exactly what the pass without selector does on the
    files whose logical name is [s]: those are merged and every other file
    is skipped without error, whatever its group; with the selector unset,
    or set to the empty string, every discovered file is selected, and the
    pass with the empty selector is the pass without selector. *)
Theorem selector_filters_by_name (s : string) (groupByFolder : bool)
    (files : list string) (st : store) :
  s ≠ EmptyString →
  forEach (callback (Some s) groupByFolder) files st
  = forEach (callback None groupByFolder)
            (filter (fun f => functionName parse f = s) files) st
  ∧ forEach (callback (Some EmptyString) groupByFolder) files st
    = forEach (callback None groupByFolder) files st
  ∧ Forall (fun f => selected parse None f = true
                     ∧ selected parse (Some EmptyString) f = true
                     ∧ selected parse (Some s) f
                       = bool_decide (functionName parse f = s)) files.
Proof.
  intros Hs. split; [| split; [reflexivity |]].
  - revert st. induction files as [| f files IH]; intros st; [done |].
    rewrite filter_cons. rewrite forEach_cons.
    rewrite (reactive_file_run (Some s)). rewrite (selected_Some _ _ Hs).
    destruct (decide (functionName parse f = s)) as [Hf | Hf].
    + rewrite bool_decide_true by done. rewrite forEach_cons.
      rewrite (reactive_file_run None). rewrite selected_unset.
      destruct (require f); [apply IH | done].
    + rewrite bool_decide_false by done. apply IH.
  - apply Forall_forall. intros f _. by rewrite (selected_Some _ _ Hs).
Qed.

End Reactive.

Lemma forEach_app_Normal (callback : string -> M unit) (l1 l2 : list string) (s s' : store) :
  forEach callback (l1 ++ l2) s = (Normal tt, s') →
  ∃ s1, forEach callback l1 s = (Normal tt, s1) ∧ forEach callback l2 s1 = (Normal tt, s').
Proof.
  rewrite forEach_app. destruct (forEach callback l1 s) as [[[] | e] s1]; [eauto | done].
Qed.

Lemma forEach_cons_Normal (callback : string -> M unit) (f : string) (l : list string)
    (s s' : store) :
  forEach callback (f :: l) s = (Normal tt, s') →
  ∃ s1, callback f s = (Normal tt, s1) ∧ forEach callback l s1 = (Normal tt, s').
Proof.
  rewrite forEach_cons. destruct (callback f s) as [[[] | e] s1]; [eauto | done].
Qed.

Lemma member_spread (s : store) (g k : string) : member s g k = spread s g !! k.
Proof. unfold member, spread. by destruct (exports s !! g). Qed.

Section ReactiveMerge.

Variable parse : string -> ParsedPath.t.
Variable require : string -> option bag.
Variable FUNCTION_NAME : option string.
Variable groupByFolder : bool.

Local Abbreviation groupName := (reactive_groupName parse groupByFolder).
Local Abbreviation callback :=
  (buildReactiveFunctions_file parse require FUNCTION_NAME groupByFolder).

(** Members are never removed. *)
Lemma reactive_member_grows g k file s c s' :
  callback file s = (c, s') → is_Some (member s g k) → is_Some (member s' g k).
Proof.
  rewrite reactive_file_run. intros Hrun Hk.
  destruct (selected parse FUNCTION_NAME file); [| by simplify_eq].
  destruct (decide (groupName file = g)) as [<- | Hne].
  - destruct (require file) as [m |]; simplify_eq;
      unfold member; simpl; rewrite lookup_insert_eq; simpl.
    + apply lookup_union_is_Some. right. by rewrite <- member_spread.
    + by rewrite <- member_spread.
  - destruct (require file) as [m |]; simplify_eq;
      unfold member; simpl; by rewrite lookup_insert_ne.
Qed.

(** A file that is merged leaves its members in its group. *)
Lemma reactive_member_written k v m file s c s' :
  callback file s = (c, s') →
  selected parse FUNCTION_NAME file = true → require file = Some m → m !! k = Some v →
  member s' (groupName file) k = Some v.
Proof.
  rewrite reactive_file_run. intros Hrun Hsel Hreq Hk.
  rewrite Hsel, Hreq in Hrun. simplify_eq.
  unfold member; simpl. rewrite lookup_insert_eq. simpl.
  by apply lookup_union_Some_l.
Qed.

(** A file that does not write [k] in [g] leaves [exports[g][k]] alone. *)
Lemma reactive_member_kept g k file s c s' :
  writes parse require FUNCTION_NAME groupByFolder g k file = false →
  callback file s = (c, s') → member s' g k = member s g k.
Proof.
  unfold writes. rewrite reactive_file_run. intros Hw Hrun.
  destruct (selected parse FUNCTION_NAME file); [| by simplify_eq].
  destruct (decide (groupName file = g)) as [<- | Hne].
  - rewrite bool_decide_true in Hw by done. simpl in Hw.
    destruct (require file) as [m |]; simplify_eq;
      unfold member at 1; simpl; rewrite lookup_insert_eq; simpl.
    + apply bool_decide_eq_false in Hw.
      rewrite lookup_union_r; [by rewrite member_spread |].
      destruct (m !! k) eqn:Hm; [| done]. exfalso. apply Hw. eauto.
    + by rewrite member_spread.
  - destruct (require file) as [m |]; simplify_eq;
      unfold member; simpl; by rewrite lookup_insert_ne.
Qed.

Lemma reactive_pass_grows g k files s c s' :
  forEach callback files s = (c, s') → is_Some (member s g k) → is_Some (member s' g k).
Proof.
  intros Hrun.
  apply (forEach_preserves (fun s => is_Some (member s g k)) (fun _ => True) callback)
    with (files := files) (c := c); [| by apply Forall_true | done].
  intros f s0 c0 s1 _. apply reactive_member_grows.
Qed.

Lemma reactive_pass_kept g k v files s c s' :
  Forall (fun f => writes parse require FUNCTION_NAME groupByFolder g k f = false) files →
  forEach callback files s = (c, s') → member s g k = Some v → member s' g k = Some v.
Proof.
  intros Hfiles Hrun.
  apply (forEach_preserves (fun s => member s g k = Some v)
           (fun f => writes parse require FUNCTION_NAME groupByFolder g k f = false) callback)
    with (files := files) (c := c); [| done | done].
  intros f s0 c0 s1 Hw Hcb Hm. by rewrite (reactive_member_kept _ _ _ _ _ _ Hw Hcb).
Qed.

(** C7. Two background-function files of one group, [f1] processed before
    [f2], both exporting a member named [k]: after the reactive pass the
    group holds the value of [f2], the later file (no file after [f2]
    writes [k] again), and every member exported by either file is present
    in the group. *)
Theorem last_writer_wins (pre mid post : list string) (f1 f2 : string)
    (m1 m2 : bag) (k k' : string) (v1 v2 : value) (st st' : store) :
  forEach callback (pre ++ f1 :: mid ++ f2 :: post) st = (Normal tt, st') →
  groupName f1 = groupName f2 →
  selected parse FUNCTION_NAME f1 = true →
  selected parse FUNCTION_NAME f2 = true →
  require f1 = Some m1 →
  require f2 = Some m2 →
  m1 !! k = Some v1 →
  m2 !! k = Some v2 →
  Forall (fun f => writes parse require FUNCTION_NAME groupByFolder (groupName f2) k f
                   = false) post →
  is_Some (m1 !! k') ∨ is_Some (m2 !! k') →
  member st' (groupName f2) k = Some v2
  ∧ is_Some (member st' (groupName f2) k').
Proof.
  intros Hrun Hgrp Hs1 Hs2 Hr1 Hr2 Hk1 Hk2 Hpost Hk'.
  apply forEach_app_Normal in Hrun as (sA & _ & Hrun).
  apply forEach_cons_Normal in Hrun as (sB & Hf1 & Hrun).
  apply forEach_app_Normal in Hrun as (sC & Hmid & Hrun).
  apply forEach_cons_Normal in Hrun as (sD & Hf2 & Hrun).
  split.
  - eapply reactive_pass_kept; [exact Hpost | exact Hrun |].
    eapply reactive_member_written; eauto.
  - eapply reactive_pass_grows; [exact Hrun |].
    destruct Hk' as [[w Hw] | [w Hw]].
    + eapply reactive_member_grows; [exact Hf2 |].
      eapply reactive_pass_grows; [exact Hmid |].
      rewrite <- Hgrp. exists w. eapply reactive_member_written; eauto.
    + exists w. eapply reactive_member_written; eauto.
Qed.

End ReactiveMerge.

(** ** The endpoint pass: what one file does *)


Lemma method_of_Some (raw : option string) (t : RequestType) :
  method_of raw = Some t → raw = Some (RequestType_value t).
Proof.
  unfold method_of. repeat case_bool_decide; intros ?; by simplify_eq.
Qed.

Lemma method_of_None (raw : option string) :
  (∀ t, raw ≠ Some (RequestType_value t)) → method_of raw = None.
Proof.
  intros Hraw. destruct (method_of raw) as [t |] eqn:Ht; [| done].
  apply method_of_Some in Ht. by destruct (Hraw t).
Qed.

Lemma routes_app (a b : router) : routes (a ++ b) = routes a ++ routes b.
Proof. apply omap_app. Qed.

Lemma routes_middleware_layers enableCors e : routes (middleware_layers enableCors e) = [].
Proof.
  unfold middleware_layers.
  destruct enableCors,
    (JS.truthy (Endpoint.options e ≫= EndpointOptions.enableCors)),
    (JS.truthy (Endpoint.options e ≫= EndpointOptions.enableFileUpload)); reflexivity.
Qed.

Lemma pushes_cons g l new s :
  pushes g (l :: new) s = pushes g new (pushes g [l] s).
Proof. reflexivity. Qed.

Lemma pushes_exports g new s : exports (pushes g new s) = exports s.
Proof. revert s. induction new as [| l new IH]; intros s; [done |]. rewrite pushes_cons, IH. done. Qed.

Lemma pushes_app g new s : app (pushes g new s) = app s.
Proof. revert s. induction new as [| l new IH]; intros s; [done |]. rewrite pushes_cons, IH. done. Qed.

Lemma pushes_router_of g new s : router_of (pushes g new s) g = router_of s g ++ new.
Proof.
  revert s. induction new as [| l new IH]; intros s.
  - by rewrite app_nil_r.
  - rewrite pushes_cons, IH. unfold router_of at 1. simpl.
    rewrite lookup_insert_eq. simpl. by rewrite <- app_assoc.
Qed.

Lemma pushes_router_of_ne g g' new s :
  g ≠ g' → groupRouters (pushes g new s) !! g' = groupRouters s !! g'.
Proof.
  intros Hne. revert s. induction new as [| l new IH]; intros s; [done |].
  rewrite pushes_cons, IH. unfold pushes. simpl. by rewrite lookup_insert_ne.
Qed.

Lemma ensure_exports g s : exports (ensure g s) = exports s.
Proof. unfold ensure. by destruct (groupRouters s !! g). Qed.

Lemma ensure_app g s : app (ensure g s) = app s.
Proof. unfold ensure. by destruct (groupRouters s !! g). Qed.

Lemma ensure_router_of g g' s : router_of (ensure g s) g' = router_of s g'.
Proof.
  unfold ensure, router_of. destruct (groupRouters s !! g) eqn:Hg; [done |]. simpl.
  destruct (decide (g = g')) as [<- | Hne].
  - by rewrite lookup_insert_eq, Hg.
  - by rewrite lookup_insert_ne.
Qed.

Section Endpoint.

Variable parse : string -> ParsedPath.t.
Variable require : string -> option bag.

Lemma buildEndpoint_run enableCors file g s :
  buildEndpoint parse require enableCors file g s
  = (endpoint_completion require file,
     pushes g (file_layers parse require enableCors file g) s).
Proof.
  unfold buildEndpoint, endpoint_completion, file_layers, file_route.
  unfold bind at 1. unfold js_require.
  destruct (require file) as [m |]; simpl; [| done].
  unfold bind at 1.
  destruct (m !! "default") as [v |]; simpl; [| done].
  set (e := as_Endpoint v).
  unfold middleware_layers, method_of. cbv beta zeta. cbn [RequestType_value].
  destruct enableCors,
    (JS.truthy (Endpoint.options e ≫= EndpointOptions.enableCors)),
    (JS.truthy (Endpoint.options e ≫= EndpointOptions.enableFileUpload));
    repeat
      match goal with
      | |- context [bool_decide (Endpoint.requestType e = Some ?x)] =>
          destruct (bool_decide (Endpoint.requestType e = Some x)); [reflexivity |]
      end;
    reflexivity.
Qed.

Lemma routes_file_layers enableCors file g :
  routes (file_layers parse require enableCors file g)
  = option_list (file_route parse require file g).
Proof.
  unfold file_layers, file_route.
  destruct (require file) as [m |]; simpl; [| done].
  destruct (m !! "default") as [v |]; simpl; [| done].
  rewrite routes_app, routes_middleware_layers. simpl.
  by destruct (method_of _).
Qed.

Lemma endpoint_completion_Normal file g :
  endpoint_completion require file = Normal tt
  ↔ is_Some (file_route parse require file g).
Proof.
  unfold endpoint_completion, file_route.
  destruct (require file) as [m |]; simpl; [| by split; [| intros [? ?]]].
  destruct (m !! "default") as [v |]; simpl; [| by split; [| intros [? ?]]].
  destruct (method_of _); simpl; by split; [| intros [? ?]].
Qed.

Lemma buildRestfulApi_file_run enableCors groupByFolder file s :
  buildRestfulApi_file parse require enableCors groupByFolder file s
  = let g := restful_groupName parse groupByFolder file in
    let s2 := pushes g (file_layers parse require enableCors file g) (ensure g s) in
    match endpoint_completion require file with
    | Normal _ => (Normal tt, publish g s2)
    | Throw _ => (Throw (Error (failed_message file g)), s2)
    end.
Proof.
  unfold buildRestfulApi_file. simpl.
  set (g := restful_groupName parse groupByFolder file).
  unfold bind at 1. unfold gets at 1.
  unfold bind at 1.
  assert (Hens : match groupRouters s !! g with
                 | Some _ => ret tt
                 | None => groupRouters_set g []
                 end s = (Normal tt, ensure g s)).
  { unfold ensure. by destruct (groupRouters s !! g). }
  rewrite Hens. unfold bind at 1. unfold try_catch.
  rewrite buildEndpoint_run.
  by destruct (endpoint_completion require file) as [[] | e].
Qed.

End Endpoint.

(** ** Strings: removing the file-purpose tag *)



Lemma append_cons (c : ascii) (s t : string) : String c s +:+ t = String c (s +:+ t).
Proof. reflexivity. Qed.

Lemma append_empty_r (s : string) : s +:+ EmptyString = s.
Proof. induction s as [| c s IH]; [done |]. by rewrite append_cons, IH. Qed.

Lemma append_cancel_l (s a b : string) : s +:+ a = s +:+ b → a = b.
Proof.
  induction s as [| c s IH]; [done |]. rewrite !append_cons. intros [= H]. by apply IH.
Qed.

Lemma prefix_slice_empty (p s : string) :
  String.prefix p s = true → JS.slice (String.length p) s = EmptyString → s = p.
Proof.
  revert s. induction p as [| c p IH]; intros s.
  - simpl. by intros _ ->.
  - destruct s as [| d s]; simpl; [done |].
    destruct (Ascii.ascii_dec c d) as [-> |]; [| done].
    intros Hp Hs. f_equal. by apply IH.
Qed.

Lemma replace_eq (tag r s : string) :
  JS.replace tag r s
  = if String.prefix tag s then r +:+ JS.slice (String.length tag) s
    else match s with
         | EmptyString => EmptyString
         | String c s' => String c (JS.replace tag r s')
         end.
Proof. by destruct s. Qed.

Lemma indexOf_eq (tag s : string) :
  JS.indexOf tag s
  = if String.prefix tag s then Some O
    else match s with
         | EmptyString => None
         | String _ s' => S <$> JS.indexOf tag s'
         end.
Proof. by destruct s. Qed.

(** Removing the first occurrence of a tag leaves nothing only when the
    string is the tag itself, or empty. *)
Lemma replace_empty (tag s : string) :
  JS.replace tag "" s = EmptyString → s = EmptyString ∨ s = tag.
Proof.
  rewrite replace_eq.
  destruct (String.prefix tag s) eqn:Hp.
  - intros Hs. right. by apply prefix_slice_empty.
  - destruct s; [by left | done].
Qed.


Lemma append_length (a b : string) :
  String.length (a +:+ b) = (String.length a + String.length b)%nat.
Proof. induction a as [| c a IH]; [done |]. rewrite append_cons. simpl. by rewrite IH. Qed.

Lemma tagged_name_not_tag (stem tag : string) :
  stem ≠ EmptyString → stem +:+ tag ≠ tag ∧ stem +:+ tag ≠ EmptyString.
Proof.
  intros Hstem. split.
  - intros Heq. apply (f_equal String.length) in Heq. rewrite append_length in Heq.
    destruct stem; [done |]. simpl in Heq. lia.
  - by destruct stem.
Qed.

(** The path [/g/] is the path [/g/name] only for the empty name. *)
Lemma path_empty_name (g nm : string) :
  "/" +:+ g +:+ "/" +:+ nm = "/" +:+ g +:+ "/" → nm = EmptyString.
Proof.
  intros H. apply append_cancel_l, append_cancel_l in H.
  by injection H.
Qed.

(** ** The endpoint pass: one step *)

Section EndpointStep.

Variable parse : string -> ParsedPath.t.
Variable require : string -> option bag.
Variable enableCors groupByFolder : bool.

Local Abbreviation group := (restful_groupName parse groupByFolder).
Local Abbreviation step :=
  (buildRestfulApi_file parse require enableCors groupByFolder).
Local Abbreviation layers_of file := (file_layers parse require enableCors file (group file)).
Local Abbreviation route_of file := (file_route parse require file (group file)).

(** A step only appends, and only to the router of the file's group. *)
Lemma step_router_of file g' s c s' :
  step file s = (c, s') →
  router_of s' g'
  = router_of s g' ++ (if decide (group file = g') then layers_of file else []).
Proof.
  rewrite buildRestfulApi_file_run. cbv zeta. intros Hrun.
  assert (Hs' : router_of s' g'
                = router_of (pushes (group file) (layers_of file) (ensure (group file) s)) g').
  { destruct (endpoint_completion require file) as [[] | e]; by simplify_eq. }
  rewrite Hs'. destruct (decide (group file = g')) as [<- | Hne].
  - by rewrite pushes_router_of, ensure_router_of.
  - unfold router_of at 1. rewrite pushes_router_of_ne by done.
    fold (router_of (ensure (group file) s) g').
    by rewrite ensure_router_of, app_nil_r.
Qed.

Lemma step_routes file g' s c s' :
  step file s = (c, s') →
  routes (router_of s' g')
  = routes (router_of s g')
    ++ (if decide (group file = g') then option_list (route_of file) else []).
Proof.
  intros Hrun. rewrite (step_router_of _ _ _ _ _ Hrun), routes_app.
  destruct (decide (group file = g')); [| done].
  by rewrite routes_file_layers.
Qed.

Lemma step_Normal file s s' :
  step file s = (Normal tt, s') →
  is_Some (route_of file)
  ∧ exports s' = <[group file := <["api" := VAdapter]> (spread s (group file))]> (exports s)
  ∧ app s' = app s ++ [group file].
Proof.
  rewrite buildRestfulApi_file_run. cbv zeta.
  destruct (endpoint_completion require file) as [[] | e] eqn:Hc; [| done].
  intros [= <-]. split; [by apply endpoint_completion_Normal |].
  unfold publish, spread. simpl.
  by rewrite pushes_exports, ensure_exports, pushes_app, ensure_app.
Qed.

Lemma step_Throw file s e s' :
  step file s = (Throw e, s') →
  e = Error (failed_message file (group file))
  ∧ route_of file = None
  ∧ exports s' = exports s
  ∧ app s' = app s.
Proof.
  rewrite buildRestfulApi_file_run. cbv zeta.
  destruct (endpoint_completion require file) as [[] | e0] eqn:Hc; [done |].
  intros [= <- <-]. split; [done |].
  rewrite pushes_exports, ensure_exports, pushes_app, ensure_app.
  split; [| done].
  destruct (route_of file) eqn:Hr; [| done].
  assert (Hn : endpoint_completion require file = Normal tt)
    by (apply (endpoint_completion_Normal parse require file (group file)); eauto).
  congruence.
Qed.



(** C10. A descriptor whose name is present but empty (a falsy name) gets
    the name derived from the file, as if it had no name; for a file named
    stem.endpoint with a non-empty stem, as [glob.sync] returns them, that
    name is not empty and the registered path is never /group/. *)
Theorem empty_name_falls_back (file : string) (m : bag) (e : Endpoint.t)
    (stem : string) (r : route) :
  require file = Some m →
  m !! "default" = Some (VEndpoint e) →
  Endpoint.name e = Some EmptyString →
  ParsedPath.name (parse file) = stem +:+ ".endpoint" →
  stem ≠ EmptyString →
  route_of file = Some r →
  endpoint_name parse e file = JS.replace ".endpoint" "" (ParsedPath.name (parse file))
  ∧ endpoint_name parse e file
    = endpoint_name parse
        (Endpoint.mk None (Endpoint.requestType e) (Endpoint.handler e) (Endpoint.options e))
        file
  ∧ endpoint_name parse e file ≠ EmptyString
  ∧ path r = "/" +:+ group file +:+ "/" +:+ endpoint_name parse e file
  ∧ path r ≠ "/" +:+ group file +:+ "/".
Proof.
  intros Hreq Hdef Hname Hfile Hstem Hroute.
  assert (Hn : endpoint_name parse e file
               = JS.replace ".endpoint" "" (ParsedPath.name (parse file))).
  { unfold endpoint_name. by rewrite Hname. }
  assert (Hne : endpoint_name parse e file ≠ EmptyString).
  { rewrite Hn, Hfile. intros Hempty.
    destruct (tagged_name_not_tag stem ".endpoint" Hstem) as [Htag Hnil].
    by destruct (replace_empty _ _ Hempty). }
  assert (Hpath : path r = "/" +:+ group file +:+ "/" +:+ endpoint_name parse e file).
  { unfold file_route in Hroute. rewrite Hreq in Hroute. simpl in Hroute.
    rewrite Hdef in Hroute. simpl in Hroute.
    destruct (method_of (Endpoint.requestType e)); simpl in Hroute; by simplify_eq. }
  repeat split; [done | done | done | done |].
  rewrite Hpath. intros Heq. by apply path_empty_name in Heq.
Qed.

(** C4, as amended. A descriptor whose request type is missing or is not
    one of GET, POST, PUT, DELETE, PATCH makes the per-file registration
    throw the descriptive error that names the requirement; the endpoint
    pass catches it and throws a new error whose message names the file and
    the group only; the iteration stops there and no route is registered
    for the file, on any router. *)
Theorem unsupported_request_type (file : string) (m : bag) (e : Endpoint.t)
    (rest : list string) (s : store) :
  require file = Some m →
  m !! "default" = Some (VEndpoint e) →
  (∀ t, Endpoint.requestType e ≠ Some (RequestType_value t)) →
  ∃ s1 s',
    buildEndpoint parse require enableCors file (group file) (ensure (group file) s)
    = (Throw (Error unsupported_message), s1)
    ∧ step file s = (Throw (Error (failed_message file (group file))), s')
    ∧ forEach step (file :: rest) s
      = (Throw (Error (failed_message file (group file))), s')
    ∧ (∀ g', routes (router_of s' g') = routes (router_of s g'))
    ∧ exports s' = exports s
    ∧ app s' = app s.
Proof.
  intros Hreq Hdef Hty.
  assert (Hc : endpoint_completion require file = Throw (Error unsupported_message)).
  { unfold endpoint_completion. rewrite Hreq, Hdef. simpl.
    by rewrite (method_of_None _ Hty). }
  destruct (step file s) as [c s'] eqn:Hstep.
  assert (Hstep' := Hstep).
  rewrite buildRestfulApi_file_run in Hstep'. cbv zeta in Hstep'.
  rewrite Hc in Hstep'. injection Hstep' as <- Hs'.
  eexists _, s'. split; [by rewrite buildEndpoint_run, Hc |].
  split; [done |]. split; [by rewrite forEach_cons, Hstep |].
  destruct (step_Throw _ _ _ _ Hstep) as (_ & Hnone & Hex & Happ).
  split; [| done]. intros g'.
  rewrite (step_routes _ _ _ _ _ Hstep), Hnone.
  destruct (decide (group file = g')); simpl; by rewrite app_nil_r.
Qed.

End EndpointStep.

(** ** The endpoint pass as a whole *)

Section EndpointPass.

Variable parse : string -> ParsedPath.t.
Variable require : string -> option bag.
Variable glob_sync : string -> list string.
Variable enableCors groupByFolder : bool.

Local Abbreviation group := (restful_groupName parse groupByFolder).
Local Abbreviation step :=
  (buildRestfulApi_file parse require enableCors groupByFolder).
Local Abbreviation layers_of file := (file_layers parse require enableCors file (group file)).
Local Abbreviation route_of file := (file_route parse require file (group file)).

Lemma published_step done f s s' :
  published parse require groupByFolder done s → step f s = (Normal tt, s') →
  published parse require groupByFolder (done ++ [f]) s'.
Proof.
  intros (Happ & Hroutes & Hapi) Hstep.
  destruct (step_Normal _ _ _ _ _ _ _ Hstep) as ([r Hr] & Hex & Happ').
  split; [| split].
  - by rewrite Happ', Happ, fmap_app.
  - intros g. rewrite (step_routes _ _ _ _ _ _ _ _ _ Hstep), Hroutes.
    rewrite filter_app, omap_app. f_equal.
    rewrite filter_cons, filter_nil.
    destruct (decide (group f = g)); simpl; [by rewrite Hr | done].
  - intros f0 Hf0. unfold member. rewrite Hex.
    destruct (decide (group f = group f0)) as [Heq | Hne].
    + rewrite <- Heq, lookup_insert_eq. simpl. apply lookup_insert_eq.
    + rewrite lookup_insert_ne by done.
      apply elem_of_app in Hf0 as [Hf0 | Hf0]; [by apply Hapi |].
      apply list_elem_of_singleton in Hf0. by subst.
Qed.

Lemma published_forEach files done s s' :
  published parse require groupByFolder done s →
  forEach step files s = (Normal tt, s') →
  published parse require groupByFolder (done ++ files) s'.
Proof.
  revert done s. induction files as [| f files IH]; intros done s Hpub Hrun.
  - simpl in Hrun. unfold ret in Hrun. simplify_eq. by rewrite app_nil_r.
  - apply forEach_cons_Normal in Hrun as (s1 & Hstep & Hrun).
    rewrite cons_middle, app_assoc.
    eapply IH; [| exact Hrun]. by eapply published_step.
Qed.

Lemma published_reset (s : store) :
  published parse require groupByFolder [] (Store (exports s) ∅ []).
Proof.
  split; [done |]. split; [| by intros f Hf%elem_of_nil].
  intros g. unfold router_of. simpl. by rewrite lookup_empty.
Qed.

Lemma buildRestfulApi_run rootPath s :
  buildRestfulApi parse require glob_sync rootPath enableCors groupByFolder s
  = forEach step (glob_sync (rootPath +:+ "/**/*.endpoint.js")) (Store (exports s) ∅ []).
Proof. reflexivity. Qed.

Lemma elem_of_app_routes (s : store) (r : route) :
  r ∈ app_routes s ↔ ∃ g, g ∈ app s ∧ r ∈ routes (router_of s g).
Proof.
  unfold app_routes. rewrite list_elem_of_In, in_flat_map.
  split; intros (g & Hg & Hr); exists g.
  - by rewrite !list_elem_of_In.
  - by rewrite <- !list_elem_of_In.
Qed.

(** C1, as amended. After the endpoint pass, every group with a discovered
    endpoint file has an adapter under its api key; the router of the group
    holds exactly the routes of the group's files; the adapter wraps the one
    application shared by all groups, so it exposes exactly the routes of
    all discovered endpoint files, those of the other groups included. *)
Theorem adapter_exposes_every_group (rootPath : string) (s s' : store) (f : string) :
  buildRestfulApi parse require glob_sync rootPath enableCors groupByFolder s
  = (Normal tt, s') →
  f ∈ glob_sync (rootPath +:+ "/**/*.endpoint.js") →
  member s' (group f) "api" = Some VAdapter
  ∧ (∀ r, r ∈ routes (router_of s' (group f))
          ↔ ∃ f', f' ∈ glob_sync (rootPath +:+ "/**/*.endpoint.js")
                  ∧ group f' = group f ∧ route_of f' = Some r)
  ∧ (∀ r, r ∈ exposed_routes s' VAdapter
          ↔ ∃ f', f' ∈ glob_sync (rootPath +:+ "/**/*.endpoint.js")
                  ∧ route_of f' = Some r).
Proof.
  rewrite buildRestfulApi_run.
  set (files := glob_sync (rootPath +:+ "/**/*.endpoint.js")).
  intros Hrun Hf.
  destruct (published_forEach files [] _ _ (published_reset s) Hrun)
    as (Happ & Hroutes & Hapi).
  simpl in Happ, Hroutes, Hapi.
  assert (Hgroup : ∀ g r, r ∈ routes (router_of s' g)
                          ↔ ∃ f', f' ∈ files ∧ group f' = g ∧ route_of f' = Some r).
  { intros g r. rewrite Hroutes, list_elem_of_omap.
    split.
    - intros (f' & Hf' & Hr). apply list_elem_of_filter in Hf' as [Hg Hf'].
      by exists f'.
    - intros (f' & Hf' & Hg & Hr). exists f'. split; [| done].
      by apply list_elem_of_filter. }
  split; [by apply Hapi |]. split; [apply Hgroup |].
  intros r. simpl. rewrite elem_of_app_routes. split.
  - intros (g & Hg & Hr). apply Hgroup in Hr as (f' & Hf' & _ & Hr). by exists f'.
  - intros (f' & Hf' & Hr). exists (group f'). split.
    + rewrite Happ. by apply list_elem_of_fmap_2.
    + apply Hgroup. by exists f'.
Qed.

(** Routers only grow. *)
Lemma step_prefix f g s c s' :
  step f s = (c, s') → router_of s g `prefix_of` router_of s' g.
Proof.
  intros Hstep. rewrite (step_router_of _ _ _ _ _ _ _ _ _ Hstep). by eexists.
Qed.

Lemma forEach_prefix files g s c s' :
  forEach step files s = (c, s') → router_of s g `prefix_of` router_of s' g.
Proof.
  intros Hrun.
  apply (forEach_preserves (fun x => router_of s g `prefix_of` router_of x g)
           (fun _ => True) step) with (files := files) (s := s) (c := c);
    [| by apply Forall_true | done | done].
  intros f0 s0 c0 s1 _ Hstep Hpre. etrans; [exact Hpre |]. by eapply step_prefix.
Qed.

(** A step that fails changes neither the namespace, nor the application,
    nor the routes of any router. *)
Lemma step_Throw_frame f s e s' :
  step f s = (Throw e, s') →
  exports s' = exports s ∧ app s' = app s
  ∧ (∀ g, routes (router_of s' g) = routes (router_of s g))
  ∧ (∀ v, exposed_routes s' v = exposed_routes s v).
Proof.
  intros Hstep.
  destruct (step_Throw _ _ _ _ _ _ _ _ Hstep) as (_ & Hnone & Hex & Happ).
  assert (Hroutes : ∀ g, routes (router_of s' g) = routes (router_of s g)).
  { intros g. rewrite (step_routes _ _ _ _ _ _ _ _ _ Hstep), Hnone.
    destruct (decide (group f = g)); simpl; by rewrite app_nil_r. }
  repeat split; [done | done | done |].
  intros [| |]; simpl; [done | done |].
  unfold app_routes. rewrite Happ. apply flat_map_ext. intros g. apply Hroutes.
Qed.

(** C8. When registration fails on the k-th endpoint file the pass aborts
    with the error of that file and nothing is rolled back: the namespace
    is the one the files before it produced (group keys, merged exports and
    published api values), and the adapters published so far expose the
    routes they exposed before the failure. *)
Theorem failure_keeps_namespace (rootPath : string) (pre post : list string)
    (f : string) (e : error) (s s1 s2 : store) :
  glob_sync (rootPath +:+ "/**/*.endpoint.js") = pre ++ f :: post →
  forEach step pre (Store (exports s) ∅ []) = (Normal tt, s1) →
  step f s1 = (Throw e, s2) →
  buildRestfulApi parse require glob_sync rootPath enableCors groupByFolder s
  = (Throw e, s2)
  ∧ e = Error (failed_message f (group f))
  ∧ exports s2 = exports s1
  ∧ app s2 = app s1
  ∧ (∀ g, routes (router_of s2 g) = routes (router_of s1 g))
  ∧ (∀ v, exposed_routes s2 v = exposed_routes s1 v).
Proof.
  intros Hfiles Hpre Hstep.
  split.
  - rewrite buildRestfulApi_run, Hfiles, forEach_app, Hpre, forEach_cons.
    by rewrite Hstep.
  - split; [by destruct (step_Throw _ _ _ _ _ _ _ _ Hstep) |].
    apply (step_Throw_frame _ _ _ _ Hstep).
Qed.

(** Publishing touches the api member only, and only in the file's group. *)
Lemma step_member_kept f g k s c s' :
  k ≠ "api" → step f s = (c, s') → member s' g k = member s g k.
Proof.
  intros Hk Hstep. destruct c as [[] | e].
  - destruct (step_Normal _ _ _ _ _ _ _ Hstep) as (_ & Hex & _).
    unfold member at 1. rewrite Hex.
    destruct (decide (group f = g)) as [<- | Hne].
    + rewrite lookup_insert_eq. simpl. rewrite lookup_insert_ne by done.
      by rewrite member_spread.
    + by rewrite lookup_insert_ne.
  - destruct (step_Throw _ _ _ _ _ _ _ _ Hstep) as (_ & _ & Hex & _).
    unfold member. by rewrite Hex.
Qed.

Lemma step_exports_frame f key s c s' :
  group f ≠ key → step f s = (c, s') → exports s' !! key = exports s !! key.
Proof.
  intros Hne Hstep. destruct c as [[] | e].
  - destruct (step_Normal _ _ _ _ _ _ _ Hstep) as (_ & Hex & _).
    rewrite Hex. by rewrite lookup_insert_ne.
  - destruct (step_Throw _ _ _ _ _ _ _ _ Hstep) as (_ & _ & Hex & _).
    by rewrite Hex.
Qed.

Lemma buildRestfulApi_member_kept rootPath g k s c s' :
  k ≠ "api" →
  buildRestfulApi parse require glob_sync rootPath enableCors groupByFolder s = (c, s') →
  member s' g k = member s g k.
Proof.
  intros Hk. rewrite buildRestfulApi_run. intros Hrun.
  apply (forEach_preserves (fun x => member x g k = member s g k) (fun _ => True) step)
    with (files := glob_sync (rootPath +:+ "/**/*.endpoint.js"))
         (s := Store (exports s) ∅ []) (c := c);
    [| by apply Forall_true | done | done].
  intros f0 s0 c0 s1 _ Hstep <-. by eapply step_member_kept.
Qed.

Lemma buildRestfulApi_exports_frame rootPath key s c s' :
  key ∉ (group <$> glob_sync (rootPath +:+ "/**/*.endpoint.js")) →
  buildRestfulApi parse require glob_sync rootPath enableCors groupByFolder s = (c, s') →
  exports s' !! key = exports s !! key.
Proof.
  intros Hkey. rewrite buildRestfulApi_run. intros Hrun.
  apply (forEach_preserves (fun x => exports x !! key = exports s !! key)
           (fun f => group f ≠ key) step)
    with (files := glob_sync (rootPath +:+ "/**/*.endpoint.js"))
         (s := Store (exports s) ∅ []) (c := c); [| | done | done].
  - intros f0 s0 c0 s1 Hne Hstep <-. by eapply step_exports_frame.
  - apply Forall_forall. intros f0 Hf0 Heq. apply Hkey.
    rewrite <- Heq. by apply list_elem_of_fmap_2.
Qed.

End EndpointPass.

(** ** Per-endpoint CORS on a shared router *)

Section SharedRouterCors.

Variable parse : string -> ParsedPath.t.
Variable require : string -> option bag.
Variable groupByFolder : bool.

Local Abbreviation group := (restful_groupName parse groupByFolder).
Local Abbreviation step := (buildRestfulApi_file parse require false groupByFolder).
Local Abbreviation route_of file := (file_route parse require file (group file)).

(** A file that registers a route pushes it last, behind its middleware. *)
Lemma file_layers_route enableCors file r :
  route_of file = Some r →
  ∃ mws, file_layers parse require enableCors file (group file) = mws ++ [Handle r].
Proof.
  unfold file_layers. intros Hr. rewrite Hr. unfold file_route in Hr.
  destruct (require file) as [m |]; simpl in Hr; [| done].
  destruct (m !! "default") as [v |]; simpl in Hr; [| done].
  by eexists.
Qed.

(** With global CORS off, a descriptor asking for CORS pushes it first. *)
Lemma file_layers_cors file m e o :
  require file = Some m →
  m !! "default" = Some (VEndpoint e) →
  Endpoint.options e = Some o →
  EndpointOptions.enableCors o = Some true →
  ∃ rest, file_layers parse require false file (group file) = Use cors :: rest.
Proof.
  intros Hreq Hdef Hopt Hcors. unfold file_layers, middleware_layers.
  rewrite Hreq, Hdef. simpl. rewrite Hopt. simpl. rewrite Hcors. simpl.
  by eexists.
Qed.

(** C5. Global CORS off, and an endpoint file [f] whose descriptor sets
    enableCors: the CORS middleware is pushed on the router of the group
    when [f] is processed, it stays there, and the route of every file
    [f'] of the same group processed later is registered behind it. *)
Theorem cors_applies_henceforth (f f' : string) (m : bag) (e : Endpoint.t)
    (o : EndpointOptions.t) (p1 p2 : list string) (s1 s2 sz : store) :
  require f = Some m →
  m !! "default" = Some (VEndpoint e) →
  Endpoint.options e = Some o →
  EndpointOptions.enableCors o = Some true →
  step f s1 = (Normal tt, s2) →
  forEach step (p1 ++ f' :: p2) s2 = (Normal tt, sz) →
  group f' = group f →
  router_of s2 (group f) !! length (router_of s1 (group f)) = Some (Use cors)
  ∧ router_of sz (group f) !! length (router_of s1 (group f)) = Some (Use cors)
  ∧ ∃ r i, route_of f' = Some r
           ∧ (length (router_of s1 (group f)) < i)%nat
           ∧ router_of sz (group f) !! i = Some (Handle r).
Proof.
  intros Hreq Hdef Hopt Hcors Hf Hlater Hgrp.
  destruct (file_layers_cors f m e o Hreq Hdef Hopt Hcors) as [rest Hlayers].
  assert (H2 : router_of s2 (group f) = router_of s1 (group f) ++ Use cors :: rest).
  { rewrite (step_router_of _ _ _ _ _ _ _ _ _ Hf).
    destruct (decide (group f = group f)); [| done]. by rewrite Hlayers. }
  assert (Hn2 : router_of s2 (group f) !! length (router_of s1 (group f))
                = Some (Use cors)).
  { rewrite H2. by apply list_lookup_middle. }
  assert (Hpz : router_of s2 (group f) `prefix_of` router_of sz (group f))
    by (by eapply forEach_prefix).
  split; [done |]. split; [by eapply prefix_lookup_Some |].
  apply forEach_app_Normal in Hlater as (sa & Hp1 & Hlater).
  apply forEach_cons_Normal in Hlater as (sb & Hf' & Hp2).
  destruct (step_Normal _ _ _ _ _ _ _ Hf') as ([r Hr] & _ & _).
  destruct (file_layers_route false f' r Hr) as [mws Hmws].
  assert (Hb : router_of sb (group f) = (router_of sa (group f) ++ mws) ++ [Handle r]).
  { rewrite (step_router_of _ _ _ _ _ _ _ _ _ Hf').
    destruct (decide (group f' = group f)); [| done]. by rewrite Hmws, app_assoc. }
  exists r, (length (router_of sa (group f) ++ mws)). split; [done |]. split.
  - assert (Hpa : router_of s2 (group f) `prefix_of` router_of sa (group f))
      by (by eapply forEach_prefix).
    apply prefix_length in Hpa. rewrite H2 in Hpa.
    rewrite !length_app in *. simpl in Hpa. lia.
  - eapply prefix_lookup_Some; [| by eapply forEach_prefix].
    rewrite Hb. by apply list_lookup_middle.
Qed.

End SharedRouterCors.

(** ** The constructor and the caller's namespace *)

Section Frame.

Variable parse : string -> ParsedPath.t.
Variable require : string -> option bag.
Variable glob_sync : string -> list string.
Variable FUNCTION_NAME : option string.

Lemma reactive_file_frame groupByFolder file key s c s' :
  reactive_groupName parse groupByFolder file ≠ key →
  buildReactiveFunctions_file parse require FUNCTION_NAME groupByFolder file s = (c, s') →
  exports s' !! key = exports s !! key.
Proof.
  intros Hne. rewrite reactive_file_run. intros Hrun.
  destruct (selected parse FUNCTION_NAME file); [| by simplify_eq].
  destruct (require file); simplify_eq; simpl; by rewrite lookup_insert_ne.
Qed.

Lemma buildReactiveFunctions_frame rootPath groupByFolder key s c s' :
  key ∉ (reactive_groupName parse groupByFolder
           <$> glob_sync (rootPath +:+ "/**/*.function.js")) →
  buildReactiveFunctions parse require glob_sync FUNCTION_NAME rootPath groupByFolder s
  = (c, s') →
  exports s' !! key = exports s !! key.
Proof.
  intros Hkey Hrun. unfold buildReactiveFunctions in Hrun.
  apply (forEach_preserves (fun x => exports x !! key = exports s !! key)
           (fun f => reactive_groupName parse groupByFolder f ≠ key)
           (buildReactiveFunctions_file parse require FUNCTION_NAME groupByFolder))
    with (files := glob_sync (rootPath +:+ "/**/*.function.js")) (s := s) (c := c);
    [| | done | done].
  - intros f0 s0 c0 s1 Hne Hstep <-. by eapply reactive_file_frame.
  - apply Forall_forall. intros f0 Hf0 Heq. apply Hkey.
    rewrite <- Heq. by apply list_elem_of_fmap_2.
Qed.

(** C9. A key of the caller's namespace that is not the group key of any
    discovered file has the same value after construction, however
    construction completes; and the endpoint pass, which publishes the api
    member, leaves every other member of every group as it found it. *)
Theorem namespace_frame (props : FunctionParserOptions.t) (key g k : string)
    (rootPath : string) (enableCors groupByFolder : bool)
    (s s' s1 s2 : store) (c c2 : completion unit) :
  FunctionParser parse require glob_sync FUNCTION_NAME props s = (c, s') →
  key ∉ (reactive_groupName parse
           (JS.nullish (FunctionParserOptions.options props ≫= ParserOptions.groupByFolder) true)
           <$> glob_sync (FunctionParserOptions.rootPath props +:+ "/**/*.function.js")) →
  key ∉ (restful_groupName parse
           (JS.nullish (FunctionParserOptions.options props ≫= ParserOptions.groupByFolder) true)
           <$> glob_sync (FunctionParserOptions.rootPath props +:+ "/**/*.endpoint.js")) →
  buildRestfulApi parse require glob_sync rootPath enableCors groupByFolder s1 = (c2, s2) →
  k ≠ "api" →
  exports s' !! key = exports s !! key
  ∧ member s2 g k = member s1 g k.
Proof.
  intros Hrun Hreactive Hrestful Hpass Hk.
  split; [| by eapply buildRestfulApi_member_kept].
  unfold FunctionParser in Hrun.
  destruct (decide (FunctionParserOptions.rootPath props = EmptyString));
    [unfold throw in Hrun; by simplify_eq |].
  cbv zeta in Hrun. unfold bind in Hrun.
  set (gbf := JS.nullish (_ ≫= ParserOptions.groupByFolder) true) in *.
  destruct (when _ (buildReactiveFunctions _ _ _ _ _ _) s) as [c1 sr] eqn:Hr.
  assert (Hsr : exports sr !! key = exports s !! key).
  { unfold when in Hr.
    destruct (JS.nullish (_ ≫= ParserOptions.buildReactive) true).
    - by eapply buildReactiveFunctions_frame.
    - unfold ret in Hr. by simplify_eq. }
  destruct c1 as [[] | e]; [| by simplify_eq].
  rewrite <- Hsr. unfold when in Hrun.
  destruct (JS.nullish (_ ≫= ParserOptions.buildEndpoints) true).
  - by eapply buildRestfulApi_exports_frame.
  - unfold ret in Hrun. by simplify_eq.
Qed.

End Frame.

(** ** The theorems at work on the sample tree *)

Section SampleRuns.

Import Sample.

Local Abbreviation reactive_file env :=
  (buildReactiveFunctions_file posix_parse require env false).
Local Abbreviation restful_file := (buildRestfulApi_file posix_parse require false false).
Local Abbreviation restful_pass glob :=
  (buildRestfulApi posix_parse require glob "/srv/fn" false false).

Example sample_groups :
  restful_groupName posix_parse false invoices = "billing"
  ∧ restful_groupName posix_parse true invoices = "fn"
  ∧ reactive_groupName posix_parse false onCreate = "users"
  ∧ reactive_groupName posix_parse true "x.function.js" = EmptyString.
Proof. by vm_compute. Qed.

(** The example of the specification: both billing routes sit on the one
    router of the group, published under [exports.billing.api]. *)
Example sample_billing :
  fst built = Normal tt
  ∧ member (snd built) "billing" "api" = Some VAdapter
  ∧ routes (router_of (snd built) "billing")
    = [Route GET "/billing/invoices" [10]; Route POST "/billing/refunds" [20; 11]].
Proof. by vm_compute. Qed.

Lemma selector_filters_by_name_witness :
  forEach (reactive_file (Some "onDelete")) [onCreate; charge; onDelete] caller
  = forEach (reactive_file None)
            (filter (fun f => functionName posix_parse f = "onDelete")
                    [onCreate; charge; onDelete]) caller
  ∧ forEach (reactive_file (Some EmptyString)) [onCreate; charge; onDelete] caller
    = forEach (reactive_file None) [onCreate; charge; onDelete] caller
  ∧ Forall (fun f => selected posix_parse None f = true
                     ∧ selected posix_parse (Some EmptyString) f = true
                     ∧ selected posix_parse (Some "onDelete") f
                       = bool_decide (functionName posix_parse f = "onDelete"))
           [onCreate; charge; onDelete].
Proof.
  apply (selector_filters_by_name posix_parse require "onDelete" false
           [onCreate; charge; onDelete] caller).
  vm_compute. discriminate.
Defined.

(** C6 fails as stated: with the selector set to the empty string, a file
    whose logical name differs from the selector is merged all the same. *)
Lemma empty_selector_selects_every_file :
  functionName posix_parse onCreate = "onCreate"
  ∧ functionName posix_parse onCreate ≠ EmptyString
  ∧ selected posix_parse (Some EmptyString) onCreate = true
  ∧ member (snd (reactive_file (Some EmptyString) onCreate caller)) "users" "onCreate"
    = Some (VFunction 1).
Proof. by vm_compute. Qed.

Lemma last_writer_wins_witness :
  member (snd (forEach (reactive_file None) [charge; onCreate; onDelete; charge] caller))
         "users" "shared"
  = Some (VFunction 4)
  ∧ is_Some (member (snd (forEach (reactive_file None)
                            [charge; onCreate; onDelete; charge] caller))
                    "users" "onCreate").
Proof.
  apply (last_writer_wins posix_parse require None false
           [charge] [] [charge] onCreate onDelete
           (<[ "onCreate" := VFunction 1 ]> {[ "shared" := VFunction 2 ]})
           (<[ "onDelete" := VFunction 3 ]> {[ "shared" := VFunction 4 ]})
           "shared" "onCreate" (VFunction 2) (VFunction 4) caller).
  - vm_compute. reflexivity.
  - vm_compute. reflexivity.
  - reflexivity.
  - reflexivity.
  - vm_compute. reflexivity.
  - vm_compute. reflexivity.
  - vm_compute. reflexivity.
  - vm_compute. reflexivity.
  - repeat constructor.
  - left. vm_compute. eauto.
Defined.

Lemma adapter_exposes_every_group_witness :
  member endpoints_built "users" "api" = Some VAdapter
  ∧ (∀ r, r ∈ routes (router_of endpoints_built "users")
          ↔ ∃ f', f' ∈ glob_sync "/srv/fn/**/*.endpoint.js"
                  ∧ restful_groupName posix_parse false f' = "users"
                  ∧ file_route posix_parse require f'
                      (restful_groupName posix_parse false f') = Some r)
  ∧ (∀ r, r ∈ exposed_routes endpoints_built VAdapter
          ↔ ∃ f', f' ∈ glob_sync "/srv/fn/**/*.endpoint.js"
                  ∧ file_route posix_parse require f'
                      (restful_groupName posix_parse false f') = Some r).
Proof.
  apply (adapter_exposes_every_group posix_parse require glob_sync false false
           "/srv/fn" caller endpoints_built profile).
  - vm_compute. reflexivity.
  - compute_done.
Defined.

(** C1 fails as stated: the adapter published for [users] answers the
    routes of [billing] as well, which the router of [users] does not
    hold. *)
Lemma adapter_exposes_other_group :
  member endpoints_built "users" "api" = Some VAdapter
  ∧ routes (router_of endpoints_built "users") = [Route GET "/users/profile" [12]]
  ∧ Route POST "/billing/refunds" [20; 11] ∈ exposed_routes endpoints_built VAdapter
  ∧ exposed_routes endpoints_built VAdapter
    ≠ routes (router_of endpoints_built "users").
Proof.
  split; [by vm_compute |]. split; [by vm_compute |]. split; compute_done.
Qed.

Example stated_name_invoices :
  stated_name invoices_endpoint "invoices.endpoint" = "invoices"
  ∧ stated_name refunds_endpoint "refunds.endpoint" = "refunds"
  ∧ stated_name profile_endpoint "profile.endpoint" = EmptyString.
Proof. by vm_compute. Qed.



Lemma empty_name_falls_back_witness :
  endpoint_name posix_parse profile_endpoint profile
  = JS.replace ".endpoint" "" (ParsedPath.name (posix_parse profile))
  ∧ endpoint_name posix_parse profile_endpoint profile
    = endpoint_name posix_parse
        (Endpoint.mk None (Endpoint.requestType profile_endpoint)
           (Endpoint.handler profile_endpoint) (Endpoint.options profile_endpoint))
        profile
  ∧ endpoint_name posix_parse profile_endpoint profile ≠ EmptyString
  ∧ path (Route GET "/users/profile" [12])
    = "/" +:+ restful_groupName posix_parse false profile +:+ "/"
          +:+ endpoint_name posix_parse profile_endpoint profile
  ∧ path (Route GET "/users/profile" [12])
    ≠ "/" +:+ restful_groupName posix_parse false profile +:+ "/".
Proof.
  apply (empty_name_falls_back posix_parse require false profile
           {[ "default" := VEndpoint profile_endpoint ]} profile_endpoint
           "profile" (Route GET "/users/profile" [12])).
  - reflexivity.
  - reflexivity.
  - reflexivity.
  - reflexivity.
  - discriminate.
  - vm_compute. reflexivity.
Defined.

Lemma unsupported_request_type_witness :
  ∃ s1 s',
    buildEndpoint posix_parse require false ping
      (restful_groupName posix_parse false ping)
      (ensure (restful_groupName posix_parse false ping) caller)
    = (Throw (Error unsupported_message), s1)
    ∧ restful_file ping caller
      = (Throw (Error (failed_message ping (restful_groupName posix_parse false ping))), s')
    ∧ forEach restful_file [ping; refunds] caller
      = (Throw (Error (failed_message ping (restful_groupName posix_parse false ping))), s')
    ∧ (∀ g', routes (router_of s' g') = routes (router_of caller g'))
    ∧ exports s' = exports caller
    ∧ app s' = app caller.
Proof.
  apply (unsupported_request_type posix_parse require false false ping
           {[ "default" := VEndpoint ping_endpoint ]} ping_endpoint [refunds] caller).
  - reflexivity.
  - reflexivity.
  - intros t. destruct t; vm_compute; discriminate.
Defined.

(** C4 fails as stated: the error construction throws carries the message
    built from the file and the group; the descriptive message that names
    the RequestType requirement is not part of it. *)
Lemma thrown_error_does_not_name_the_requirement :
  fst built_ping = Throw (Error (failed_message ping "users"))
  ∧ failed_message ping "users"
    = "Restful Endpoints - Failed to add the endpoint defined in /srv/fn/users/ping.endpoint.js to the users Api."
  ∧ JS.indexOf "RequestType" (failed_message ping "users") = None
  ∧ JS.indexOf "RequestType" unsupported_message = Some 14%nat
  ∧ fst built_ping ≠ Throw (Error unsupported_message).
Proof.
  split; [by vm_compute |]. split; [by vm_compute |]. split; [by vm_compute |].
  split; [by vm_compute |]. vm_compute. discriminate.
Qed.

Lemma cors_applies_henceforth_witness :
  router_of (snd (restful_file invoices fresh))
            (restful_groupName posix_parse false invoices)
    !! length (router_of fresh (restful_groupName posix_parse false invoices))
  = Some (Use cors)
  ∧ router_of (snd (forEach restful_file [profile; refunds]
                      (snd (restful_file invoices fresh))))
              (restful_groupName posix_parse false invoices)
      !! length (router_of fresh (restful_groupName posix_parse false invoices))
    = Some (Use cors)
  ∧ ∃ r i,
      file_route posix_parse require refunds (restful_groupName posix_parse false refunds)
      = Some r
      ∧ (length (router_of fresh (restful_groupName posix_parse false invoices)) < i)%nat
      ∧ router_of (snd (forEach restful_file [profile; refunds]
                          (snd (restful_file invoices fresh))))
                  (restful_groupName posix_parse false invoices) !! i
        = Some (Handle r).
Proof.
  apply (cors_applies_henceforth posix_parse require false invoices refunds
           {[ "default" := VEndpoint invoices_endpoint ]} invoices_endpoint
           (EndpointOptions.mk (Some true) None None) [profile] []
           fresh (snd (restful_file invoices fresh))).
  - reflexivity.
  - reflexivity.
  - reflexivity.
  - reflexivity.
  - vm_compute. reflexivity.
  - vm_compute. reflexivity.
  - vm_compute. reflexivity.
Defined.

Lemma failure_keeps_namespace_witness :
  restful_pass glob_sync_ping caller
  = (Throw (Error (failed_message ping "users")),
     snd (restful_file ping (snd (forEach restful_file [invoices] fresh))))
  ∧ Error (failed_message ping "users")
    = Error (failed_message ping (restful_groupName posix_parse false ping))
  ∧ exports (snd (restful_file ping (snd (forEach restful_file [invoices] fresh))))
    = exports (snd (forEach restful_file [invoices] fresh))
  ∧ app (snd (restful_file ping (snd (forEach restful_file [invoices] fresh))))
    = app (snd (forEach restful_file [invoices] fresh))
  ∧ (∀ g, routes (router_of (snd (restful_file ping
                                    (snd (forEach restful_file [invoices] fresh)))) g)
          = routes (router_of (snd (forEach restful_file [invoices] fresh)) g))
  ∧ (∀ v, exposed_routes (snd (restful_file ping
                                 (snd (forEach restful_file [invoices] fresh)))) v
          = exposed_routes (snd (forEach restful_file [invoices] fresh)) v).
Proof.
  apply (failure_keeps_namespace posix_parse require glob_sync_ping false false
           "/srv/fn" [invoices] [refunds] ping
           (Error (failed_message ping "users")) caller
           (snd (forEach restful_file [invoices] fresh))).
  - reflexivity.
  - vm_compute. reflexivity.
  - vm_compute. reflexivity.
Defined.

Lemma namespace_frame_witness :
  exports (snd built) !! "legacy" = exports caller !! "legacy"
  ∧ member (snd (restful_pass glob_sync (snd (reactive_pass_of caller)))) "users" "shared"
    = member (snd (reactive_pass_of caller)) "users" "shared".
Proof.
  apply (namespace_frame posix_parse require glob_sync None props
           "legacy" "users" "shared" "/srv/fn" false false
           caller (snd built) (snd (reactive_pass_of caller))
           (snd (restful_pass glob_sync (snd (reactive_pass_of caller))))
           (fst built)
           (fst (restful_pass glob_sync (snd (reactive_pass_of caller))))).
  - vm_compute. reflexivity.
  - compute_done.
  - compute_done.
  - vm_compute. reflexivity.
  - discriminate.
Defined.

End SampleRuns.

(** * Further properties of the parser *)

(** ** How the passes and the constructor complete *)

Lemma forEach_Throw_inv (callback : string -> M unit) (files : list string)
    (s s' : store) (e : error) :
  forEach callback files s = (Throw e, s') →
  ∃ pre f post s1,
    files = pre ++ f :: post
    ∧ forEach callback pre s = (Normal tt, s1)
    ∧ callback f s1 = (Throw e, s').
Proof.
  revert s. induction files as [| f files IH]; intros s Hrun.
  - simpl in Hrun. unfold ret in Hrun. by simplify_eq.
  - rewrite forEach_cons in Hrun.
    destruct (callback f s) as [[[] | e0] s0] eqn:Hcb.
    + destruct (IH _ Hrun) as (pre & f' & post & s1 & -> & Hpre & Hf').
      exists (f :: pre), f', post, s1. split; [done |]. split; [| done].
      by rewrite forEach_cons, Hcb.
    + simplify_eq. exists [], f, files, s. by repeat split.
Qed.

Section Completion.

Variable parse : string -> ParsedPath.t.
Variable require : string -> option bag.
Variable glob_sync : string -> list string.
Variable FUNCTION_NAME : option string.

Lemma reactive_pass_completion groupByFolder files s :
  fst (forEach (buildReactiveFunctions_file parse require FUNCTION_NAME groupByFolder)
         files s)
  = match find (fails_to_load parse require FUNCTION_NAME) files with
    | Some f => Throw (ModuleError f)
    | None => Normal tt
    end.
Proof.
  revert s. induction files as [| f files IH]; intros s; [done |].
  rewrite forEach_cons, reactive_file_run. simpl. unfold fails_to_load at 1.
  destruct (selected parse FUNCTION_NAME f); simpl; [| apply IH].
  destruct (require f); simpl; [apply IH | done].
Qed.



End Completion.

(** ** The reactive pass: what a group ends up holding *)

Lemma overwrite_foldl (require : string -> option bag) (k : string)
    (old : option value) (files : list string) :
  foldl (overwrite require k) old files
  = match foldl (overwrite require k) None files with
    | Some v => Some v
    | None => old
    end.
Proof.
  revert old. induction files as [| f files IH]; intros old; [done |].
  simpl. rewrite (IH (overwrite require k old f)), (IH (overwrite require k None f)).
  destruct (foldl (overwrite require k) None files); [done |].
  unfold overwrite. by destruct (require f ≫= _).
Qed.

Lemma lookup_by_members (s1 s2 : store) (g : string) :
  (∀ k, member s2 g k = member s1 g k) →
  (is_Some (exports s2 !! g) ↔ is_Some (exports s1 !! g)) →
  exports s2 !! g = exports s1 !! g.
Proof.
  unfold member. intros Hk Hg.
  destruct (exports s2 !! g) as [b2 |] eqn:H2, (exports s1 !! g) as [b1 |] eqn:H1.
  - f_equal. apply map_eq. intros k. apply (Hk k).
  - destruct Hg as [Hg _]. by destruct Hg.
  - destruct Hg as [_ Hg]. by destruct Hg.
  - done.
Qed.

Section ReactiveOutcome.

Variable parse : string -> ParsedPath.t.
Variable require : string -> option bag.
Variable FUNCTION_NAME : option string.
Variable groupByFolder : bool.

Local Abbreviation groupName := (reactive_groupName parse groupByFolder).
Local Abbreviation callback :=
  (buildReactiveFunctions_file parse require FUNCTION_NAME groupByFolder).
Local Abbreviation merged g files :=
  (merged_into parse FUNCTION_NAME groupByFolder g files).

(** The reactive pass touches neither the routers nor the application. *)
Lemma reactive_file_routers file s c s' :
  callback file s = (c, s') → groupRouters s' = groupRouters s ∧ app s' = app s.
Proof.
  rewrite reactive_file_run. intros Hrun.
  destruct (selected parse FUNCTION_NAME file); [| by simplify_eq].
  by destruct (require file); simplify_eq.
Qed.

Lemma reactive_pass_routers files s c s' :
  forEach callback files s = (c, s') → groupRouters s' = groupRouters s ∧ app s' = app s.
Proof.
  intros Hrun.
  apply (forEach_preserves
           (fun x => groupRouters x = groupRouters s ∧ app x = app s)
           (fun _ => True) callback)
    with (files := files) (s := s) (c := c); [| by apply Forall_true | done | done].
  intros f0 s0 c0 s1 _ Hcb [<- <-]. by eapply reactive_file_routers.
Qed.

Lemma reactive_file_member g k file s s' :
  callback file s = (Normal tt, s') →
  member s' g k
  = foldl (overwrite require k) (member s g k) (merged g [file]).
Proof.
  rewrite reactive_file_run. intros Hrun.
  unfold merged_into. rewrite filter_cons, filter_nil.
  destruct (selected parse FUNCTION_NAME file) eqn:Hsel.
  - destruct (require file) as [m |] eqn:Hreq; [| done]. simplify_eq.
    unfold member at 1. simpl.
    destruct (decide (groupName file = g)) as [<- | Hne].
    + rewrite decide_True by done. simpl. unfold overwrite. rewrite Hreq. simpl.
      rewrite lookup_insert_eq. simpl. rewrite lookup_union.
      rewrite <- member_spread.
      destruct (m !! k), (member s (groupName file) k); done.
    + rewrite decide_False by (intros [_ ?]; done). simpl.
      by rewrite lookup_insert_ne.
  - simplify_eq. rewrite decide_False by (intros [? _]; done). done.
Qed.

Lemma reactive_file_group g file s s' :
  callback file s = (Normal tt, s') →
  is_Some (exports s' !! g) ↔ is_Some (exports s !! g) ∨ merged g [file] ≠ [].
Proof.
  rewrite reactive_file_run. intros Hrun.
  unfold merged_into. rewrite filter_cons, filter_nil.
  destruct (selected parse FUNCTION_NAME file) eqn:Hsel.
  - destruct (require file) as [m |] eqn:Hreq; [| done]. simplify_eq. simpl.
    destruct (decide (groupName file = g)) as [<- | Hne].
    + rewrite decide_True by done. rewrite lookup_insert_eq. split; [by right | eauto].
    + rewrite decide_False by (intros [_ ?]; done).
      rewrite lookup_insert_ne by done. split; [by left | by intros [? | ?]].
  - simplify_eq. rewrite decide_False by (intros [? _]; done).
    split; [by left | by intros [? | ?]].
Qed.

Lemma reactive_pass_closed_form (files : list string) (g k : string) (s s' : store) :
  forEach callback files s = (Normal tt, s') →
  member s' g k = foldl (overwrite require k) (member s g k) (merged g files)
  ∧ (is_Some (exports s' !! g) ↔ is_Some (exports s !! g) ∨ merged g files ≠ []).
Proof.
  revert s. induction files as [| f files IH]; intros s Hrun.
  - simpl in Hrun. unfold ret in Hrun. simplify_eq.
    split; [done |]. split; [by left | by intros [? | ?]].
  - apply forEach_cons_Normal in Hrun as (s1 & Hf & Hrun).
    destruct (IH _ Hrun) as [Hmem Hgrp].
    change (f :: files) with ([f] ++ files).
    unfold merged_into in *. rewrite filter_app, foldl_app.
    split.
    + by rewrite Hmem, (reactive_file_member g k f s s1 Hf).
    + rewrite Hgrp, (reactive_file_group g f s s1 Hf).
      unfold merged_into.
      destruct (filter _ [f]); simpl; [| by split; [right | left; right]].
      split; [intros [[? | ?] | ?]; eauto; done | intros [? | ?]; eauto].
Qed.

(** X2. After a reactive pass that completes, the member [k] of group [g] is the
    one of the last merged file of the group that exports [k], and the
    member the caller had there when no merged file of the group exports
    [k]; the group exists when the caller had it or a file was merged into
    it. *)
Theorem reactive_pass_members (files : list string) (g k : string) (s s' : store) :
  forEach callback files s = (Normal tt, s') →
  member s' g k = foldl (overwrite require k) (member s g k) (merged g files)
  ∧ (is_Some (exports s' !! g) ↔ is_Some (exports s !! g) ∨ merged g files ≠ []).
Proof. apply reactive_pass_closed_form. Qed.

(** X3. Running the reactive pass a second time changes nothing: a pass that
    completes leaves a store on which the same pass completes again and
    gives that very store. *)
Theorem reactive_pass_idempotent (files : list string) (s s1 : store) :
  forEach callback files s = (Normal tt, s1) →
  forEach callback files s1 = (Normal tt, s1).
Proof.
  intros Hrun.
  destruct (forEach callback files s1) as [c2 s2] eqn:Hrun2.
  assert (Hc : c2 = Normal tt).
  { pose proof (reactive_pass_completion parse require FUNCTION_NAME groupByFolder
                  files s) as H1.
    pose proof (reactive_pass_completion parse require FUNCTION_NAME groupByFolder
                  files s1) as H2.
    rewrite Hrun in H1. rewrite Hrun2 in H2. simpl in *. congruence. }
  subst c2. f_equal.
  destruct (reactive_pass_routers _ _ _ _ Hrun2) as [Hr Ha].
  assert (Hex : exports s2 = exports s1).
  { apply map_eq. intros g. apply lookup_by_members.
    - intros k.
      destruct (reactive_pass_closed_form files g k _ _ Hrun) as [H1 _].
      destruct (reactive_pass_closed_form files g k _ _ Hrun2) as [H2 _].
      rewrite H2, H1.
      rewrite (overwrite_foldl require k (foldl _ _ _)).
      rewrite (overwrite_foldl require k (member s g k)).
      by destruct (foldl (overwrite require k) None _).
    - destruct (reactive_pass_closed_form files g "" _ _ Hrun) as [_ H1].
      destruct (reactive_pass_closed_form files g "" _ _ Hrun2) as [_ H2].
      rewrite H2, H1. tauto. }
  destruct s1, s2; simpl in *. by subst.
Qed.

(** X4. A selected file whose module fails to load aborts the pass with the
    module's error, after the group object has been created: the group of
    the file exists afterwards, empty if the caller had none, and no other
    key of the namespace has changed. *)
Theorem load_failure_leaves_group (file : string) (s : store) :
  selected parse FUNCTION_NAME file = true →
  require file = None →
  ∃ s', callback file s = (Throw (ModuleError file), s')
    ∧ exports s' = <[groupName file := spread s (groupName file)]> (exports s)
    ∧ member s' (groupName file) = member s (groupName file)
    ∧ groupRouters s' = groupRouters s
    ∧ app s' = app s.
Proof.
  intros Hsel Hreq. rewrite reactive_file_run, Hsel, Hreq.
  eexists. split; [done |]. simpl. repeat split.
  unfold member. simpl. rewrite lookup_insert_eq.
  unfold spread. by destruct (exports s !! groupName file).
Qed.

End ReactiveOutcome.

Section SelectorMiss.

Variable parse : string -> ParsedPath.t.
Variable require : string -> option bag.

(** X5. A non-empty selector that is the logical name of no discovered file
    makes the reactive pass a no-op: it completes, loads no module (a module
    that would throw does not matter) and leaves the store as it was, without
    creating any group. *)
Theorem selector_without_match (sel : string) (groupByFolder : bool)
    (files : list string) (s : store) :
  sel ≠ EmptyString →
  Forall (fun f => functionName parse f ≠ sel) files →
  forEach (buildReactiveFunctions_file parse require (Some sel) groupByFolder) files s
  = (Normal tt, s).
Proof.
  intros Hsel Hfiles. induction Hfiles as [| f files Hf _ IH]; [done |].
  rewrite forEach_cons, reactive_file_run, (selected_Some _ _ _ Hsel).
  by rewrite bool_decide_false.
Qed.

End SelectorMiss.

(** ** Group keys and route paths *)

Lemma slash_free_empty : slash_free EmptyString.
Proof. reflexivity. Qed.

Lemma prefix_slash (c : ascii) (s : string) :
  String.prefix "/" (String c s) = if Ascii.ascii_dec "/" c then true else false.
Proof. by destruct s. Qed.

Lemma slash_free_cons (c : ascii) (s : string) :
  c ≠ "/"%char → slash_free s → slash_free (String c s).
Proof.
  unfold slash_free. intros Hc Hs. rewrite indexOf_eq, prefix_slash.
  destruct (Ascii.ascii_dec "/" c) as [Heq | _]; [by destruct Hc |].
  by rewrite Hs.
Qed.

Lemma slash_free_inv (c : ascii) (s : string) :
  slash_free (String c s) → c ≠ "/"%char ∧ slash_free s.
Proof.
  unfold slash_free. rewrite indexOf_eq, prefix_slash.
  destruct (Ascii.ascii_dec "/" c) as [Heq | Hne]; [done |].
  intros Hs. split; [congruence |]. by destruct (JS.indexOf "/" s).
Qed.

Lemma split_slash_free (s : string) : Forall slash_free (JS.split "/" s).
Proof.
  induction s as [| c s IH]; simpl.
  - repeat constructor.
  - destruct (decide (c = "/"%char)) as [-> | Hc].
    + constructor; [apply slash_free_empty | exact IH].
    + destruct (JS.split "/" s) as [| h t].
      * repeat constructor. by apply slash_free_cons.
      * inversion_clear IH as [| ? ? Hh Ht]. constructor; [| done].
        by apply slash_free_cons.
Qed.

Lemma or_empty_index_slash_free (l : list string) (i : Z) :
  Forall slash_free l → slash_free (JS.or_empty (JS.index l i)).
Proof.
  intros Hl. rewrite or_empty_default. unfold JS.index.
  destruct (i <? 0)%Z; [apply slash_free_empty |].
  destruct (l !! Z.to_nat i) as [x |] eqn:Hx; [| apply slash_free_empty].
  simpl. by eapply Forall_lookup_1.
Qed.

(** Two paths [/g/name] with the same text lie in the same group, when the
    group keys are single segments. *)
Lemma same_path_same_group (g g' n n' : string) :
  slash_free g → slash_free g' →
  "/" +:+ g +:+ "/" +:+ n = "/" +:+ g' +:+ "/" +:+ n' → g = g'.
Proof.
  intros Hg Hg' Heq. apply (append_cancel_l "/") in Heq.
  revert g' Hg' Heq. induction g as [| c g IH]; intros g' Hg' Heq.
  - destruct g' as [| c' g']; [done |].
    apply slash_free_inv in Hg' as [Hc' _]. rewrite append_cons in Heq.
    simpl in Heq. injection Heq as Hc _. by destruct Hc'.
  - apply slash_free_inv in Hg as [Hc Hg].
    destruct g' as [| c' g'].
    + rewrite append_cons in Heq. simpl in Heq. injection Heq as Hc' _.
      by destruct Hc.
    + rewrite !append_cons in Heq. injection Heq as -> Heq.
      apply slash_free_inv in Hg' as [_ Hg']. f_equal. by apply IH.
Qed.

Section GroupKeys.

Variable parse : string -> ParsedPath.t.

(** X6. The group key never contains a slash, whatever [path.parse] returns: it
    is one segment of the directory path, or empty. *)
Theorem group_key_is_one_segment (groupByFolder : bool) (file : string) :
  slash_free (reactive_groupName parse groupByFolder file)
  ∧ slash_free (restful_groupName parse groupByFolder file).
Proof.
  unfold reactive_groupName, restful_groupName.
  destruct groupByFolder; split;
    apply or_empty_index_slash_free, split_slash_free.
Qed.

Lemma restful_groupName_slash_free (groupByFolder : bool) (file : string) :
  slash_free (restful_groupName parse groupByFolder file).
Proof.
  unfold restful_groupName.
  destruct groupByFolder; apply or_empty_index_slash_free, split_slash_free.
Qed.

End GroupKeys.

(** ** The endpoint pass: routers, middleware and mounts *)

Lemma ensure_is_Some (g : string) (s : store) : is_Some (groupRouters (ensure g s) !! g).
Proof.
  unfold ensure. destruct (groupRouters s !! g) eqn:Hg; [by rewrite Hg |].
  simpl. by rewrite lookup_insert_eq.
Qed.

Lemma ensure_lookup_ne (g g' : string) (s : store) :
  g ≠ g' → groupRouters (ensure g s) !! g' = groupRouters s !! g'.
Proof.
  intros Hne. unfold ensure. destruct (groupRouters s !! g); [done |].
  simpl. by rewrite lookup_insert_ne.
Qed.

Lemma pushes_is_Some (g : string) (new : list layer) (s : store) :
  is_Some (groupRouters s !! g) → is_Some (groupRouters (pushes g new s) !! g).
Proof.
  revert s. induction new as [| l new IH]; intros s Hs; [done |].
  rewrite pushes_cons. apply IH. unfold pushes. simpl. by rewrite lookup_insert_eq.
Qed.

Lemma middleware_layers_are_middleware (enableCors : bool) (e : Endpoint.t) :
  forallb is_middleware (middleware_layers enableCors e) = true.
Proof.
  unfold middleware_layers.
  destruct enableCors,
    (JS.truthy (Endpoint.options e ≫= EndpointOptions.enableCors)),
    (JS.truthy (Endpoint.options e ≫= EndpointOptions.enableFileUpload)); reflexivity.
Qed.

Section EndpointOutcome.

Variable parse : string -> ParsedPath.t.
Variable require : string -> option bag.
Variable enableCors groupByFolder : bool.

Local Abbreviation group := (restful_groupName parse groupByFolder).
Local Abbreviation step :=
  (buildRestfulApi_file parse require enableCors groupByFolder).
Local Abbreviation route_of file := (file_route parse require file (group file)).

(** A step gives the group of its file a router, and no other group. *)
Lemma step_router_dom f g' s c s' :
  step f s = (c, s') →
  is_Some (groupRouters s' !! g') ↔ is_Some (groupRouters s !! g') ∨ g' = group f.
Proof.
  rewrite buildRestfulApi_file_run. cbv zeta. intros Hrun.
  assert (Hs' : groupRouters s'
                = groupRouters (pushes (group f)
                                  (file_layers parse require enableCors f (group f))
                                  (ensure (group f) s))).
  { destruct (endpoint_completion require f) as [[] | e]; by simplify_eq. }
  rewrite Hs'. destruct (decide (group f = g')) as [<- | Hne].
  - split; [by right |]. intros _. apply pushes_is_Some, ensure_is_Some.
  - rewrite pushes_router_of_ne, ensure_lookup_ne by done.
    split; [by left | by intros [? | ->]].
Qed.


(** X8. What a failing file leaves behind: its group has a router (created for
    it when the group had none), on which the blanket middleware of the
    descriptor was pushed before the throw when the module gave one; the
    router gets no route, is not mounted for this file, and nothing is
    published. *)
Theorem failing_file_leaves_router (file : string) (e : error) (s s' : store) :
  step file s = (Throw e, s') →
  is_Some (groupRouters s' !! group file)
  ∧ router_of s' (group file)
    = router_of s (group file)
      ++ match require file ≫= (fun m => m !! "default") with
         | Some v => middleware_layers enableCors (as_Endpoint v)
         | None => []
         end
  ∧ forallb is_middleware (drop (length (router_of s (group file)))
                             (router_of s' (group file))) = true
  ∧ app s' = app s
  ∧ exports s' = exports s.
Proof.
  intros Hstep.
  destruct (step_Throw _ _ _ _ _ _ _ _ Hstep) as (_ & Hnone & Hex & Happ).
  assert (Hr : router_of s' (group file)
               = router_of s (group file)
                 ++ match require file ≫= (fun m => m !! "default") with
                    | Some v => middleware_layers enableCors (as_Endpoint v)
                    | None => []
                    end).
  { rewrite (step_router_of _ _ _ _ _ _ _ _ _ Hstep), decide_True by done.
    f_equal. unfold file_layers. rewrite Hnone.
    destruct (require file) as [m |]; simpl; [| done].
    destruct (m !! "default"); simpl; [by rewrite app_nil_r | done]. }
  split; [apply (step_router_dom _ _ _ _ _ Hstep); by right |].
  split; [done |]. split; [| done].
  rewrite Hr, drop_app_length.
  destruct (require file ≫= _); [apply middleware_layers_are_middleware | done].
Qed.

End EndpointOutcome.

Section EndpointPassOutcome.

Variable parse : string -> ParsedPath.t.
Variable require : string -> option bag.
Variable glob_sync : string -> list string.
Variable groupByFolder : bool.

Local Abbreviation group := (restful_groupName parse groupByFolder).
Local Abbreviation route_of file := (file_route parse require file (group file)).

Lemma routers_of_processed enableCors files done s c s' :
  (∀ g, is_Some (groupRouters s !! g) ↔ g ∈ group <$> done) →
  forEach (buildRestfulApi_file parse require enableCors groupByFolder) files s = (c, s') →
  ∀ g, is_Some (groupRouters s' !! g) → g ∈ group <$> (done ++ files).
Proof.
  revert done s. induction files as [| f files IH]; intros done s Hdom Hrun g Hg.
  - simpl in Hrun. unfold ret in Hrun. simplify_eq. rewrite app_nil_r. by apply Hdom.
  - rewrite forEach_cons in Hrun.
    destruct (buildRestfulApi_file _ _ _ _ f s) as [c1 s1] eqn:Hstep.
    assert (Hdom1 : ∀ g, is_Some (groupRouters s1 !! g) ↔ g ∈ group <$> (done ++ [f])).
    { intros g0. rewrite (step_router_dom _ _ _ _ _ _ _ _ _ Hstep), Hdom.
      rewrite fmap_app, elem_of_app. simpl. by rewrite list_elem_of_singleton. }
    rewrite cons_middle, app_assoc.
    destruct c1 as [[] | e1].
    + by eapply IH.
    + simplify_eq. rewrite fmap_app, elem_of_app. left. by apply Hdom1.
Qed.

(** X9. After an endpoint pass that completes, the application has mounted one
    router per endpoint file, in traversal order, so a group with n files has
    its router mounted n times; and a group has a router exactly when it has
    an endpoint file. *)
Theorem one_mount_per_file (enableCors : bool) (rootPath g : string) (s s' : store) :
  buildRestfulApi parse require glob_sync rootPath enableCors groupByFolder s
  = (Normal tt, s') →
  app s' = group <$> glob_sync (rootPath +:+ "/**/*.endpoint.js")
  ∧ (is_Some (groupRouters s' !! g)
     ↔ g ∈ group <$> glob_sync (rootPath +:+ "/**/*.endpoint.js")).
Proof.
  rewrite buildRestfulApi_run. intros Hrun.
  destruct (published_forEach parse require enableCors groupByFolder _ [] _ _
              (published_reset parse require groupByFolder s) Hrun)
    as (Happ & Hroutes & _).
  split; [done |]. split.
  - intros Hg.
    apply (routers_of_processed enableCors _ [] _ _ _) with (g := g) in Hrun; [done | | done].
    intros g0. simpl. rewrite lookup_empty. split; [by intros [? ?] | by intros ?%elem_of_nil].
  - intros Hg. apply list_elem_of_fmap in Hg as (f & -> & Hf).
    apply list_elem_of_split in Hf as (pre & post & Hfiles).
    rewrite Hfiles in Hrun.
    apply forEach_app_Normal in Hrun as (s1 & _ & Hrun).
    apply forEach_cons_Normal in Hrun as (s2 & Hstep & Hrun).
    assert (H2 : is_Some (groupRouters s2 !! group f))
      by (apply (step_router_dom _ _ _ _ _ _ _ _ _ Hstep); by right).
    revert H2. generalize (group f). intros g0 H2.
    apply (forEach_preserves (fun x => is_Some (groupRouters x !! g0)) (fun _ => True)
             (buildRestfulApi_file parse require enableCors groupByFolder))
      with (files := post) (s := s2) (c := Normal tt);
      [| by apply Forall_true | done | done].
    intros f0 x c0 x' _ Hx Hsome.
    apply (step_router_dom _ _ _ _ _ _ _ _ _ Hx). by left.
Qed.

(** Every route lies under the key of its router: a router of the pass
    holds only paths [/g/...] for its own group key [g], which is a single
    segment. *)
Lemma routes_under_group enableCors rootPath s c s' g r :
  buildRestfulApi parse require glob_sync rootPath enableCors groupByFolder s = (c, s') →
  r ∈ routes (router_of s' g) →
  slash_free g ∧ ∃ nm, path r = "/" +:+ g +:+ "/" +:+ nm.
Proof.
  rewrite buildRestfulApi_run. intros Hrun. revert r.
  apply (forEach_preserves
           (fun x => ∀ r, r ∈ routes (router_of x g) →
                          slash_free g ∧ ∃ nm, path r = "/" +:+ g +:+ "/" +:+ nm)
           (fun _ => True)
           (buildRestfulApi_file parse require enableCors groupByFolder))
    with (files := glob_sync (rootPath +:+ "/**/*.endpoint.js"))
         (s := Store (exports s) ∅ []) (c := c); [| by apply Forall_true | done |].
  - intros f x c0 x' _ Hstep Hinv r.
    rewrite (step_routes _ _ _ _ _ _ _ _ _ Hstep), elem_of_app.
    intros [Hr | Hr]; [by apply Hinv |].
    destruct (decide (group f = g)) as [<- | Hne]; [| by apply elem_of_nil in Hr].
    destruct (route_of f) as [r0 |] eqn:Hr0; simpl in Hr; [| by apply elem_of_nil in Hr].
    apply list_elem_of_singleton in Hr as ->.
    split; [apply restful_groupName_slash_free |].
    unfold file_route in Hr0.
    destruct (require f) as [m |]; simpl in Hr0; [| done].
    destruct (m !! "default") as [v |]; simpl in Hr0; [| done].
    destruct (method_of _); simpl in Hr0; [| done].
    simplify_eq. by eexists.
  - intros r. unfold router_of. simpl. rewrite lookup_empty. simpl.
    by intros ?%elem_of_nil.
Qed.

(** X10. Routes of different groups never share a path: whatever names the
    descriptors choose, a request path is answered by routes of one group
    only. *)
Theorem groups_do_not_share_paths (enableCors : bool) (rootPath g g' : string)
    (r r' : route) (s s' : store) (c : completion unit) :
  buildRestfulApi parse require glob_sync rootPath enableCors groupByFolder s = (c, s') →
  r ∈ routes (router_of s' g) →
  r' ∈ routes (router_of s' g') →
  g ≠ g' →
  path r ≠ path r'
  ∧ ∃ nm, path r = "/" +:+ g +:+ "/" +:+ nm.
Proof.
  intros Hrun Hr Hr' Hne.
  destruct (routes_under_group _ _ _ _ _ _ _ Hrun Hr) as (Hg & nm & Hp).
  destruct (routes_under_group _ _ _ _ _ _ _ Hrun Hr') as (Hg' & nm' & Hp').
  split; [| by exists nm].
  rewrite Hp, Hp'. intros Heq. apply Hne. by eapply same_path_same_group.
Qed.

(** X11. With CORS switched on globally, every route of every router sits behind
    a CORS layer of the same router, however the pass completes. *)
Theorem global_cors_guards_every_route (rootPath g : string) (i : nat) (r : route)
    (s s' : store) (c : completion unit) :
  buildRestfulApi parse require glob_sync rootPath true groupByFolder s = (c, s') →
  router_of s' g !! i = Some (Handle r) →
  ∃ j, (j < i)%nat ∧ router_of s' g !! j = Some (Use cors).
Proof.
  rewrite buildRestfulApi_run. intros Hrun. revert i r.
  apply (forEach_preserves
           (fun x => ∀ i r, router_of x g !! i = Some (Handle r) →
                            ∃ j, (j < i)%nat ∧ router_of x g !! j = Some (Use cors))
           (fun _ => True)
           (buildRestfulApi_file parse require true groupByFolder))
    with (files := glob_sync (rootPath +:+ "/**/*.endpoint.js"))
         (s := Store (exports s) ∅ []) (c := c); [| by apply Forall_true | done |].
  - intros f x c0 x' _ Hstep Hinv i r.
    rewrite (step_router_of _ _ _ _ _ _ _ _ _ Hstep).
    assert (Hlayers : (if decide (group f = g)
                       then file_layers parse require true f (group f) else []) = []
                      ∨ ∃ rest, (if decide (group f = g)
                                 then file_layers parse require true f (group f) else [])
                                = Use cors :: rest).
    { destruct (decide (group f = g)); [| by left].
      unfold file_layers, middleware_layers.
      destruct (require f) as [m |]; [| by left].
      destruct (m !! "default") as [v |]; [| by left].
      right. by eexists. }
    destruct Hlayers as [-> | [rest ->]].
    + rewrite app_nil_r. apply Hinv.
    + intros Hi. apply lookup_app_Some in Hi as [Hi | [Hlen Hi]].
      * destruct (Hinv _ _ Hi) as (j & Hj & Hcors). exists j. split; [done |].
        by apply lookup_app_l_Some.
      * destruct (i - length (router_of x g))%nat as [| n] eqn:Hn; [done |].
        exists (length (router_of x g)). split; [lia |].
        by apply list_lookup_middle.
  - intros i r. unfold router_of. simpl. by rewrite lookup_empty.
Qed.

End EndpointPassOutcome.

(** ** The constructor: what it never removes, and who writes [api] last *)

Section ConstructorOutcome.

Variable parse : string -> ParsedPath.t.
Variable require : string -> option bag.
Variable glob_sync : string -> list string.
Variable FUNCTION_NAME : option string.

Lemma reactive_file_group_kept groupByFolder g file s c s' :
  buildReactiveFunctions_file parse require FUNCTION_NAME groupByFolder file s = (c, s') →
  is_Some (exports s !! g) → is_Some (exports s' !! g).
Proof.
  rewrite reactive_file_run. intros Hrun Hg.
  destruct (selected parse FUNCTION_NAME file); [| by simplify_eq].
  destruct (require file); simplify_eq; simpl;
    (destruct (decide (reactive_groupName parse groupByFolder file = g)) as [<- | Hne];
     [by rewrite lookup_insert_eq | by rewrite lookup_insert_ne]).
Qed.

Lemma restful_file_grows enableCors groupByFolder g k file s c s' :
  buildRestfulApi_file parse require enableCors groupByFolder file s = (c, s') →
  (is_Some (exports s !! g) → is_Some (exports s' !! g))
  ∧ (is_Some (member s g k) → is_Some (member s' g k)).
Proof.
  intros Hstep. destruct c as [[] | e].
  - destruct (step_Normal _ _ _ _ _ _ _ Hstep) as (_ & Hex & _).
    unfold member. rewrite Hex.
    destruct (decide (restful_groupName parse groupByFolder file = g)) as [<- | Hne].
    + rewrite lookup_insert_eq. simpl. split; [eauto |].
      destruct (decide (k = "api")) as [-> | Hk].
      * rewrite lookup_insert_eq. eauto.
      * rewrite lookup_insert_ne by done. unfold spread.
        by destruct (exports s !! _).
    + by rewrite lookup_insert_ne.
  - destruct (step_Throw _ _ _ _ _ _ _ _ Hstep) as (_ & _ & Hex & _).
    unfold member. by rewrite Hex.
Qed.

(** X12. Construction never removes anything from the caller's namespace: a group
    that was there is still there, and so is every member of it (its value
    may have been overwritten), however construction completes. *)
Theorem construction_never_removes (props : FunctionParserOptions.t) (g0 g k : string)
    (s s' : store) (c : completion unit) :
  FunctionParser parse require glob_sync FUNCTION_NAME props s = (c, s') →
  is_Some (exports s !! g0) →
  is_Some (member s g k) →
  is_Some (exports s' !! g0) ∧ is_Some (member s' g k).
Proof.
  intros Hrun Hg0 Hk.
  unfold FunctionParser in Hrun.
  destruct (decide (FunctionParserOptions.rootPath props = EmptyString));
    [unfold throw in Hrun; by simplify_eq |].
  cbv zeta in Hrun. unfold bind in Hrun.
  set (gbf := JS.nullish (_ ≫= ParserOptions.groupByFolder) true) in *.
  destruct (when _ (buildReactiveFunctions _ _ _ _ _ _) s) as [c1 sr] eqn:Hr.
  assert (Hsr : is_Some (exports sr !! g0) ∧ is_Some (member sr g k)).
  { unfold when in Hr.
    destruct (JS.nullish (_ ≫= ParserOptions.buildReactive) true);
      [| unfold ret in Hr; by simplify_eq].
    unfold buildReactiveFunctions in Hr. split.
    - apply (forEach_preserves (fun x => is_Some (exports x !! g0)) (fun _ => True)
               (buildReactiveFunctions_file parse require FUNCTION_NAME gbf))
        with (files := glob_sync (FunctionParserOptions.rootPath props
                                    +:+ "/**/*.function.js"))
             (s := s) (c := c1); [| by apply Forall_true | done | done].
      intros f x c2 x' _ Hcb. by eapply reactive_file_group_kept.
    - by eapply reactive_pass_grows. }
  destruct c1 as [[] | e]; [| by simplify_eq].
  unfold when in Hrun.
  destruct (JS.nullish (_ ≫= ParserOptions.buildEndpoints) true);
    [| unfold ret in Hrun; by simplify_eq].
  rewrite buildRestfulApi_run in Hrun.
  apply (forEach_preserves
           (fun x => is_Some (exports x !! g0) ∧ is_Some (member x g k))
           (fun _ => True)
           (buildRestfulApi_file parse require
              (JS.nullish (FunctionParserOptions.options props ≫= ParserOptions.enableCors)
                 false) gbf))
    with (files := glob_sync (FunctionParserOptions.rootPath props +:+ "/**/*.endpoint.js"))
         (s := Store (exports sr) ∅ []) (c := c);
    [| by apply Forall_true | done | done].
  intros f x c2 x' _ Hstep [H1 H2].
  split.
  - by apply (restful_file_grows _ _ g0 k _ _ _ _ Hstep).
  - by apply (restful_file_grows _ _ g k _ _ _ _ Hstep).
Qed.

(** X13. The endpoint pass runs after the reactive pass, so the adapter is the
    last writer of [api]: when construction completes with the endpoint pass
    on, every group with an endpoint file holds the adapter under [api], also
    when a background-function module of the group exports a member of that
    name. *)
Theorem adapter_is_last_writer_of_api (props : FunctionParserOptions.t) (f : string)
    (s s' : store) :
  FunctionParser parse require glob_sync FUNCTION_NAME props s = (Normal tt, s') →
  JS.nullish (FunctionParserOptions.options props ≫= ParserOptions.buildEndpoints) true
  = true →
  f ∈ glob_sync (FunctionParserOptions.rootPath props +:+ "/**/*.endpoint.js") →
  member s'
    (restful_groupName parse
       (JS.nullish (FunctionParserOptions.options props ≫= ParserOptions.groupByFolder) true)
       f)
    "api"
  = Some VAdapter.
Proof.
  intros Hrun Hon Hf. unfold FunctionParser in Hrun.
  destruct (decide (FunctionParserOptions.rootPath props = EmptyString));
    [unfold throw in Hrun; by simplify_eq |].
  cbv zeta in Hrun. unfold bind in Hrun. rewrite Hon in Hrun.
  set (gbf := JS.nullish (_ ≫= ParserOptions.groupByFolder) true) in *.
  destruct (when _ (buildReactiveFunctions _ _ _ _ _ _) s) as [[[] | e] sr];
    [| by simplify_eq].
  simpl in Hrun. rewrite buildRestfulApi_run in Hrun.
  destruct (published_forEach parse require _ gbf _ [] _ _
              (published_reset parse require gbf sr) Hrun) as (_ & _ & Hapi).
  by apply Hapi.
Qed.

End ConstructorOutcome.

(** ** The further properties on the sample tree *)

Section SampleOutcomes.

Import Sample.

Local Abbreviation reactive_file :=
  (buildReactiveFunctions_file posix_parse require None false).
Local Abbreviation restful_file enableCors :=
  (buildRestfulApi_file posix_parse require enableCors false).

Example construction_on_samples :
  fst built = Normal tt
  ∧ fst built_ping = Throw (Error (failed_message ping "users"))
  ∧ fst (FunctionParser posix_parse require glob_sync None
           (FunctionParserOptions.mk "" None) caller)
    = Throw (Error rootPath_message)
  ∧ fst (FunctionParser posix_parse require
           (fun _ => [onCreate; SampleMore.broken; ping]) None props caller)
    = Throw (ModuleError SampleMore.broken).
Proof. by vm_compute. Qed.

Lemma reactive_pass_members_witness :
  member (snd (forEach reactive_file [onCreate; charge; onDelete] caller)) "users" "shared"
  = foldl (overwrite require "shared") (member caller "users" "shared")
          (merged_into posix_parse None false "users" [onCreate; charge; onDelete])
  ∧ (is_Some (exports (snd (forEach reactive_file [onCreate; charge; onDelete] caller))
                !! "users")
     ↔ is_Some (exports caller !! "users")
       ∨ merged_into posix_parse None false "users" [onCreate; charge; onDelete] ≠ []).
Proof.
  apply (reactive_pass_members posix_parse require None false
           [onCreate; charge; onDelete] "users" "shared" caller).
  vm_compute. reflexivity.
Defined.

Lemma reactive_pass_idempotent_witness :
  forEach reactive_file [onCreate; charge; onDelete]
    (snd (forEach reactive_file [onCreate; charge; onDelete] caller))
  = (Normal tt, snd (forEach reactive_file [onCreate; charge; onDelete] caller)).
Proof.
  apply (reactive_pass_idempotent posix_parse require None false
           [onCreate; charge; onDelete] caller).
  vm_compute. reflexivity.
Defined.

Lemma load_failure_leaves_group_witness :
  ∃ s', reactive_file SampleMore.broken caller
        = (Throw (ModuleError SampleMore.broken), s')
    ∧ exports s'
      = <[reactive_groupName posix_parse false SampleMore.broken
          := spread caller (reactive_groupName posix_parse false SampleMore.broken)]>
          (exports caller)
    ∧ member s' (reactive_groupName posix_parse false SampleMore.broken)
      = member caller (reactive_groupName posix_parse false SampleMore.broken)
    ∧ groupRouters s' = groupRouters caller
    ∧ app s' = app caller.
Proof.
  apply (load_failure_leaves_group posix_parse require None false
           SampleMore.broken caller).
  - reflexivity.
  - reflexivity.
Defined.

Lemma selector_without_match_witness :
  forEach (buildReactiveFunctions_file posix_parse require (Some "nightly") false)
    [onCreate; SampleMore.broken; charge] caller
  = (Normal tt, caller).
Proof.
  apply (selector_without_match posix_parse require "nightly" false
           [onCreate; SampleMore.broken; charge] caller).
  - discriminate.
  - repeat constructor; vm_compute; discriminate.
Defined.


Example avatar_layers :
  router_of (snd (buildRestfulApi_file posix_parse SampleMore.require false false
                    SampleMore.avatar caller)) "users"
  = [Use cors; Use fileUpload; Handle (Route PUT "/users/avatar" [21; 22; 14])].
Proof. by vm_compute. Qed.

Lemma failing_file_leaves_router_witness :
  is_Some (groupRouters (snd (restful_file true ping fresh))
             !! restful_groupName posix_parse false ping)
  ∧ router_of (snd (restful_file true ping fresh)) (restful_groupName posix_parse false ping)
    = router_of fresh (restful_groupName posix_parse false ping)
      ++ match require ping ≫= (fun m => m !! "default") with
         | Some v => middleware_layers true (as_Endpoint v)
         | None => []
         end
  ∧ forallb is_middleware
      (drop (length (router_of fresh (restful_groupName posix_parse false ping)))
            (router_of (snd (restful_file true ping fresh))
                       (restful_groupName posix_parse false ping))) = true
  ∧ app (snd (restful_file true ping fresh)) = app fresh
  ∧ exports (snd (restful_file true ping fresh)) = exports fresh.
Proof.
  apply (failing_file_leaves_router posix_parse require true false ping
           (Error (failed_message ping "users")) fresh).
  vm_compute. reflexivity.
Defined.

Example ping_leaves_cors_behind :
  router_of (snd (restful_file true ping fresh)) "users" = [Use cors]
  ∧ router_of (snd (restful_file false ping fresh)) "users" = []
  ∧ groupRouters fresh !! "users" = None.
Proof. by vm_compute. Qed.

Lemma one_mount_per_file_witness :
  app endpoints_built
  = restful_groupName posix_parse false <$> glob_sync ("/srv/fn" +:+ "/**/*.endpoint.js")
  ∧ (is_Some (groupRouters endpoints_built !! "billing")
     ↔ "billing" ∈ restful_groupName posix_parse false
                      <$> glob_sync ("/srv/fn" +:+ "/**/*.endpoint.js")).
Proof.
  apply (one_mount_per_file posix_parse require glob_sync false false "/srv/fn"
           "billing" caller endpoints_built).
  vm_compute. reflexivity.
Defined.

Example billing_is_mounted_twice : app endpoints_built = ["billing"; "users"; "billing"].
Proof. by vm_compute. Qed.

Lemma groups_do_not_share_paths_witness :
  path (Route GET "/billing/invoices" [10]) ≠ path (Route GET "/users/profile" [12])
  ∧ ∃ nm, path (Route GET "/billing/invoices" [10]) = "/" +:+ "billing" +:+ "/" +:+ nm.
Proof.
  apply (groups_do_not_share_paths posix_parse require glob_sync false false "/srv/fn"
           "billing" "users" (Route GET "/billing/invoices" [10])
           (Route GET "/users/profile" [12]) caller endpoints_built (Normal tt)).
  - vm_compute. reflexivity.
  - compute_done.
  - compute_done.
  - discriminate.
Defined.

Lemma global_cors_guards_every_route_witness :
  ∃ j, (j < 1)%nat
       ∧ router_of (snd SampleMore.built_with_cors) "users" !! j = Some (Use cors).
Proof.
  apply (global_cors_guards_every_route posix_parse require glob_sync false "/srv/fn"
           "users" 1 (Route GET "/users/profile" [12]) caller
           (snd SampleMore.built_with_cors) (fst SampleMore.built_with_cors)).
  - vm_compute. reflexivity.
  - vm_compute. reflexivity.
Defined.

Lemma construction_never_removes_witness :
  is_Some (exports (snd built) !! "legacy") ∧ is_Some (member (snd built) "legacy" "cron").
Proof.
  apply (construction_never_removes posix_parse require glob_sync None props
           "legacy" "legacy" "cron" caller (snd built) (fst built)).
  - vm_compute. reflexivity.
  - vm_compute. eauto.
  - vm_compute. eauto.
Defined.

Lemma adapter_is_last_writer_of_api_witness :
  member (snd SampleMore.built)
    (restful_groupName posix_parse
       (JS.nullish (FunctionParserOptions.options props ≫= ParserOptions.groupByFolder) true)
       invoices)
    "api"
  = Some VAdapter.
Proof.
  apply (adapter_is_last_writer_of_api posix_parse SampleMore.require
           SampleMore.glob_sync None props invoices caller (snd SampleMore.built)).
  - vm_compute. reflexivity.
  - reflexivity.
  - compute_done.
Defined.

(** The function module of [billing] exports [api]; the adapter replaces
    it. *)
Example gateway_api_is_replaced :
  member (snd (buildReactiveFunctions posix_parse SampleMore.require SampleMore.glob_sync
                 None "/srv/fn" false caller)) "billing" "api"
  = Some (VFunction 6)
  ∧ member (snd SampleMore.built) "billing" "api" = Some VAdapter.
Proof. by vm_compute. Qed.

End SampleOutcomes.

(** ** Routers only grow, one route per file *)

Section RouterGrowth.

Variable parse : string -> ParsedPath.t.
Variable require : string -> option bag.
Variable glob_sync : string -> list string.
Variable enableCors groupByFolder : bool.

Local Abbreviation group := (restful_groupName parse groupByFolder).
Local Abbreviation step :=
  (buildRestfulApi_file parse require enableCors groupByFolder).
Local Abbreviation route_of file := (file_route parse require file (group file)).

Lemma step_app_prefix f s c s' : step f s = (c, s') → app s `prefix_of` app s'.
Proof.
  intros Hstep. destruct c as [[] | e].
  - destruct (step_Normal _ _ _ _ _ _ _ Hstep) as (_ & _ & ->). by eexists.
  - by destruct (step_Throw _ _ _ _ _ _ _ _ Hstep) as (_ & _ & _ & ->).
Qed.

(** X14. The endpoint pass never removes or reorders anything: from any store on,
    and however the iteration completes, the stack of every router and the
    list of mounts of the application are extended at their end only. *)
Theorem routers_are_append_only (files : list string) (g : string) (s s' : store)
    (c : completion unit) :
  forEach step files s = (c, s') →
  router_of s g `prefix_of` router_of s' g
  ∧ app s `prefix_of` app s'.
Proof.
  intros Hrun. split; [by eapply forEach_prefix |].
  apply (forEach_preserves (fun x => app s `prefix_of` app x) (fun _ => True) step)
    with (files := files) (s := s) (c := c); [| by apply Forall_true | done | done].
  intros f0 s0 c0 s1 _ Hstep Hpre. etrans; [exact Hpre |]. by eapply step_app_prefix.
Qed.

Lemma completed_files_register files s s' :
  forEach step files s = (Normal tt, s') → Forall (fun f => is_Some (route_of f)) files.
Proof.
  revert s. induction files as [| f files IH]; intros s Hrun; [done |].
  apply forEach_cons_Normal in Hrun as (s1 & Hstep & Hrun).
  constructor; [by destruct (step_Normal _ _ _ _ _ _ _ Hstep) | by eapply IH].
Qed.

Lemma omap_all_Some {A B} (f : A → option B) (l : list A) :
  Forall (fun x => is_Some (f x)) l → length (omap f l) = length l.
Proof.
  induction 1 as [| x l [y Hy] _ IH]; [done |].
  change (omap f (x :: l)) with (match f x with
                                 | Some y => y :: omap f l
                                 | None => omap f l
                                 end).
  rewrite Hy. simpl. by f_equal.
Qed.

Lemma omap_all_Some_fmap {A B} (f : A → option B) (l : list A) :
  Forall (fun x => is_Some (f x)) l → Some <$> omap f l = f <$> l.
Proof.
  induction 1 as [| x l [y Hy] _ IH]; [done |].
  change (omap f (x :: l)) with (match f x with
                                 | Some y => y :: omap f l
                                 | None => omap f l
                                 end).
  rewrite fmap_cons, Hy, fmap_cons. by f_equal.
Qed.

(** X15. After an endpoint pass that completes, the router of a group holds as
    many routes as the group has endpoint files, in traversal order: nothing
    is merged or dropped, also when two files resolve to the same method and
    path. *)
Theorem one_route_per_file_no_dedup (rootPath g : string) (s s' : store) :
  buildRestfulApi parse require glob_sync rootPath enableCors groupByFolder s
  = (Normal tt, s') →
  length (routes (router_of s' g))
  = length (filter (fun f => group f = g) (glob_sync (rootPath +:+ "/**/*.endpoint.js")))
  ∧ Some <$> routes (router_of s' g)
    = (fun f => route_of f)
        <$> filter (fun f => group f = g) (glob_sync (rootPath +:+ "/**/*.endpoint.js")).
Proof.
  rewrite buildRestfulApi_run. intros Hrun.
  destruct (published_forEach parse require enableCors groupByFolder _ [] _ _
              (published_reset parse require groupByFolder s) Hrun)
    as (_ & Hroutes & _).
  simpl in Hroutes. rewrite Hroutes.
  assert (Hall : Forall (fun f => is_Some (route_of f))
                   (filter (fun f => group f = g)
                      (glob_sync (rootPath +:+ "/**/*.endpoint.js")))).
  { apply Forall_forall. intros f Hf. apply list_elem_of_filter in Hf as [_ Hf].
    pose proof (completed_files_register _ _ _ Hrun) as Hreg.
    by apply (proj1 (Forall_forall _ _) Hreg). }
  split; [by apply omap_all_Some | by apply omap_all_Some_fmap].
Qed.

End RouterGrowth.

Section SampleGrowth.

Import Sample.

Lemma routers_are_append_only_witness :
  router_of (snd (buildRestfulApi_file posix_parse require false false invoices fresh))
            "billing"
    `prefix_of` router_of endpoints_built "billing"
  ∧ app (snd (buildRestfulApi_file posix_parse require false false invoices fresh))
      `prefix_of` app endpoints_built.
Proof.
  apply (routers_are_append_only posix_parse require false false [profile; refunds]
           "billing"
           (snd (buildRestfulApi_file posix_parse require false false invoices fresh))
           endpoints_built (Normal tt)).
  vm_compute. reflexivity.
Defined.

Lemma one_route_per_file_no_dedup_witness :
  length (routes (router_of endpoints_built "billing"))
  = length (filter (fun f => restful_groupName posix_parse false f = "billing")
              (glob_sync ("/srv/fn" +:+ "/**/*.endpoint.js")))
  ∧ Some <$> routes (router_of endpoints_built "billing")
    = (fun f => file_route posix_parse require f (restful_groupName posix_parse false f))
        <$> filter (fun f => restful_groupName posix_parse false f = "billing")
              (glob_sync ("/srv/fn" +:+ "/**/*.endpoint.js")).
Proof.
  apply (one_route_per_file_no_dedup posix_parse require glob_sync false false "/srv/fn"
           "billing" caller endpoints_built).
  vm_compute. reflexivity.
Defined.

(** The same file listed twice registers its route twice. *)
Example same_route_twice :
  routes (router_of (snd (forEach (buildRestfulApi_file posix_parse require false false)
                            [profile; profile] fresh)) "users")
  = [Route GET "/users/profile" [12]; Route GET "/users/profile" [12]].
Proof. by vm_compute. Qed.

End SampleGrowth.
